(** * A shallow embedding of basic_chess_game

    The development follows the two source files:
    - [piece_classes.py]: the six piece classes and their [valid_moves];
    - [basic_chess.py]: [ChessGame] (board dictionary, turn, game state,
      coordinate conversion, [make_move]).

    Python values are modelled as follows.
    - [str] is [string]; a character is an [ascii], read as the code point
      of the same number, so the model covers the code points 0..255.
    - [int] is [Z].
    - The dictionary [_init_pos] is a [gmap string Piece].  Every piece
      object is referenced from one dictionary entry only (the constructor
      builds one object per key, and [make_move] pops the origin key before
      it stores the object under the destination key), so the dictionary is
      modelled by value.
    - A raised exception is the [Raise] outcome of [result]; methods that
      assign to attributes of the game run in the state monad [M].

    The boards that the game can reach satisfy [wf_board]: every key is
    one of the 64 square notations and every piece records its key as its
    position ([new_game_wf], [make_move_wf], [reachable_wf]).  The
    properties of accepted moves are stated for such boards. *)

From Stdlib Require Import ZArith String Ascii List Bool Lia.
From Stdlib Require Import DecimalString DecimalZ Decimal DecimalPos.
From stdpp Require Import gmap strings.

Open Scope string_scope.
Open Scope list_scope.
Open Scope Z_scope.

(** ** Exceptions and results *)

Inductive exn : Type :=
| ValueError
| IndexError
| KeyError
| AttributeError
| InvalidStateError.

(** [OutOfFuel] is not a Python outcome: it marks a [while True] loop of
    the model that was cut off by its iteration budget.  The lemmas
    [sweep_fuel_enough] and [valid_moves_total] show that the budget used
    below is never exhausted. *)
Inductive result (A : Type) : Type :=
| Ok (a : A)
| Raise (e : exn)
| OutOfFuel.

Arguments Ok {A} a.
Arguments Raise {A} e.
Arguments OutOfFuel {A}.

Definition rbind {A B : Type} (r : result A) (k : A -> result B) : result B :=
  match r with
  | Ok a => k a
  | Raise e => Raise e
  | OutOfFuel => OutOfFuel
  end.

Declare Scope result_scope.
Delimit Scope result_scope with result.
Notation "x <- r ;; k" := (rbind r (fun x => k))
  (at level 100, r at next level, right associativity) : result_scope.
Open Scope result_scope.

(** ** Python built-ins on strings and integers *)

Module Py.

(** [ord(c)] *)
Definition ord (a : ascii) : Z := Z.of_N (N_of_ascii a).

(** [chr(n)].  Python raises [ValueError] when [n] is not in
    [range(0x110000)]; the model has the characters 0..255 only, the
    theorems below use [chr] inside that range. *)
Definition chr (n : Z) : result string :=
  if (0 <=? n) && (n <? 256)
  then Ok (String (ascii_of_N (Z.to_N n)) EmptyString)
  else Raise ValueError.

(** [c.lower()] for the code points 0..255: the ASCII capitals and the
    Latin-1 capitals (all of 192..222 but the multiplication sign 215)
    move up by 32. *)
Definition lower_char (a : ascii) : ascii :=
  let n := ord a in
  if ((65 <=? n) && (n <=? 90)) || ((192 <=? n) && (n <=? 222) && negb (n =? 215))
  then ascii_of_N (Z.to_N (n + 32))
  else a.

(** [s.lower()] *)
Fixpoint lower (s : string) : string :=
  match s with
  | EmptyString => EmptyString
  | String a s' => String (lower_char a) (lower s')
  end.

(** [str(n)] for an integer: decimal digits, a leading minus sign for
    negative numbers, no leading zeros. *)
Definition str (n : Z) : string := NilZero.string_of_int (Z.to_int n).

(** White space as [int] skips it around the literal. *)
Definition is_space (a : ascii) : bool :=
  let n := ord a in
  ((9 <=? n) && (n <=? 13)) || ((28 <=? n) && (n <=? 32))
  || (n =? 133) || (n =? 160).

Fixpoint lstrip (s : string) : string :=
  match s with
  | EmptyString => EmptyString
  | String a s' => if is_space a then lstrip s' else s
  end.

Fixpoint rstrip (s : string) : string :=
  match s with
  | EmptyString => EmptyString
  | String a s' =>
      match rstrip s' with
      | EmptyString => if is_space a then EmptyString else String a EmptyString
      | t => String a t
      end
  end.

Definition strip (s : string) : string := rstrip (lstrip s).

Definition digit_val (a : ascii) : option Z :=
  let n := ord a in
  if (48 <=? n) && (n <=? 57) then Some (n - 48) else None.

(** The digits of an integer literal: one or more decimal digits, with
    single underscores allowed between two digits.  [after_digit] tells
    whether the previous character was a digit. *)
Fixpoint digits (s : string) (acc : Z) (after_digit : bool) : option Z :=
  match s with
  | EmptyString => if after_digit then Some acc else None
  | String a s' =>
      match digit_val a with
      | Some d => digits s' (10 * acc + d) true
      | None =>
          if (a =? "_")%char && after_digit then digits s' acc false else None
      end
  end.

(** [int(s)] for a string: surrounding white space is dropped, then an
    optional sign and the digits are read; anything else raises
    [ValueError].  (The cap that recent interpreters put on the number of
    digits is not modelled.) *)
Definition int (s : string) : result Z :=
  match strip s with
  | EmptyString => Raise ValueError
  | String a t =>
      let r := if (a =? "-")%char then option_map Z.opp (digits t 0 false)
               else if (a =? "+")%char then digits t 0 false
               else digits (String a t) 0 false in
      match r with
      | Some n => Ok n
      | None => Raise ValueError
      end
  end.

End Py.

(** ** Coordinate conversion ([ChessGame.coord_to_index], [index_to_coord]) *)

(** [coord_str[0]] raises [IndexError] on the empty string; [int] raises
    [ValueError] when [coord_str[1:]] is not an integer literal. *)
Definition coord_to_index (coord_str : string) : result (Z * Z) :=
  match coord_str with
  | EmptyString => Raise IndexError
  | String c0 rest =>
      let col := Py.ord (Py.lower_char c0) - 97 in
      n <- Py.int rest ;;
      let row := 8 - n in
      Ok (col, row)
  end.

Definition index_to_coord (col row : Z) : result string :=
  let letter_a_ascii := 97 in
  let col_ascii := col + letter_a_ascii in
  col_letter <- Py.chr col_ascii ;;
  let row := 7 - row in
  let row_num := Py.str (row + 1) in
  let position := col_letter +:+ row_num in
  Ok position.

(** ** Pieces ([piece_classes.py]) *)

Inductive Color : Type := WHITE | BLACK.

Inductive Kind : Type := Pawn | Rook | Knight | Bishop | Queen | King.

(** The attributes of a piece object.  [_init_move] is created by
    [Pawn.__init__] only; the other classes get it when [make_move] assigns
    it, so it is optional here.  [_board] is the game the piece was created
    for: the methods below take the board dictionary as an argument. *)
Record Piece : Type := mkPiece {
  kind : Kind;
  color : Color;
  position : string;
  init_move : option bool
}.

Definition color_eqb (a b : Color) : bool :=
  match a, b with
  | WHITE, WHITE | BLACK, BLACK => true
  | _, _ => false
  end.

Definition kind_eqb (a b : Kind) : bool :=
  match a, b with
  | Pawn, Pawn | Rook, Rook | Knight, Knight
  | Bishop, Bishop | Queen, Queen | King, King => true
  | _, _ => false
  end.

(** The constructors of the six classes. *)
Definition new_piece (k : Kind) (c : Color) (pos : string) : Piece :=
  {| kind := k; color := c; position := pos;
     init_move := match k with Pawn => Some true | _ => None end |}.

Abbreviation Board := (gmap string Piece).

(** An argument of [get_piece]: a [(col, row)] tuple or a notation string. *)
Inductive PosArg : Type :=
| PTuple (col row : Z)
| PStr (s : string).

(** [ChessGame.get_piece] *)
Definition get_piece (b : Board) (pos : PosArg) : result (option Piece) :=
  pos <- match pos with
         | PTuple col row => index_to_coord col row
         | PStr s => Ok s
         end ;;
  Ok (b !! Py.lower pos).

(** [ChessGame.is_square_open].  No entry of the dictionary is ever [None],
    so the second disjunct of the source never decides. *)
Definition is_square_open (b : Board) (position : string) : bool :=
  let position := Py.lower position in
  match b !! position with
  | None => true
  | Some _ => false
  end.

(** [ChessGame.is_opponent] *)
Definition is_opponent (b : Board) (position : PosArg) (c : Color) : result bool :=
  piece <- get_piece b position ;;
  match piece with
  | None => Ok false
  | Some piece => Ok (negb (color_eqb (color piece) c))
  end.

(** A [for] loop without [break] over a list, threading the accumulated
    value. *)
Fixpoint for_each {A B : Type} (l : list B) (body : A -> B -> result A) (a : A)
  : result A :=
  match l with
  | [] => Ok a
  | x :: l' => a' <- body a x ;; for_each l' body a'
  end.

Definition in_grid (col row : Z) : bool :=
  (0 <=? col) && (col <? 8) && (0 <=? row) && (row <? 8).

(** [Pawn.valid_moves] *)
Definition pawn_valid_moves (b : Board) (self : Piece) : result (list string) :=
  start <- coord_to_index (position self) ;;
  let '(start_col, start_row) := start in
  let direction := match color self with WHITE => 1 | BLACK => -1 end in
  let forward_reg := start_row - direction in
  valid_moves <-
    (if (forward_reg <? 8) && (0 <=? forward_reg) then
       move_forward <- index_to_coord start_col forward_reg ;;
       let valid_moves :=
         if is_square_open b move_forward then [move_forward] else [] in
       flag <- match init_move self with
               | Some f => Ok f
               | None => Raise AttributeError
               end ;;
       if flag then
         let forward_move1 := start_row - 2 * direction in
         if (forward_move1 <? 8) && (0 <=? forward_move1) then
           forward_move1 <- index_to_coord start_col forward_move1 ;;
           if is_square_open b forward_move1
           then Ok (valid_moves ++ [forward_move1])
           else Ok valid_moves
         else Ok valid_moves
       else Ok valid_moves
     else Ok []) ;;
  for_each [-1; 1]
    (fun valid_moves diagonal =>
       let cap_col := start_col + diagonal in
       if (0 <=? cap_col) && (cap_col <? 8) then
         cap_pos <- index_to_coord cap_col forward_reg ;;
         opp <- is_opponent b (PStr cap_pos) (color self) ;;
         if opp then Ok (valid_moves ++ [cap_pos]) else Ok valid_moves
       else Ok valid_moves)
    valid_moves.

(** The [if]/[elif] that the three sliding pieces run on a square of the
    grid: the square is appended when it is open or holds an opponent. *)
Definition visit (b : Board) (c : Color) (pos : string) (valid_moves : list string)
  : result (list string) :=
  if is_square_open b pos then Ok (valid_moves ++ [pos])
  else
    opp <- is_opponent b (PStr pos) c ;;
    if opp then Ok (valid_moves ++ [pos]) else Ok valid_moves.

(** The inner loop of [Rook.valid_moves], [for move in range(1, 8)], whose
    only [break] is the test of the grid. *)
Fixpoint rook_ray (b : Board) (c : Color) (start_col start_row : Z)
    (diag : Z * Z) (moves : list Z) (valid_moves : list string)
  : result (list string) :=
  match moves with
  | [] => Ok valid_moves
  | move :: moves' =>
      let to_col := start_col + fst diag * move in
      let to_row := start_row + snd diag * move in
      if negb ((0 <=? to_col) && (to_col <? 8) && (0 <=? to_row) && (to_row <? 8))
      then Ok valid_moves
      else
        next_pos <- index_to_coord to_col to_row ;;
        valid_moves <- visit b c next_pos valid_moves ;;
        rook_ray b c start_col start_row diag moves' valid_moves
  end.

Definition range_1_8 : list Z := [1; 2; 3; 4; 5; 6; 7].

(** [Rook.valid_moves] *)
Definition rook_valid_moves (b : Board) (self : Piece) : result (list string) :=
  start <- coord_to_index (position self) ;;
  let '(start_col, start_row) := start in
  let direction := [(0, 1); (1, 0); (0, -1); (-1, 0)] in
  for_each direction
    (fun valid_moves diag =>
       rook_ray b (color self) start_col start_row diag range_1_8 valid_moves)
    [].

(** The [while True] loop of [Bishop.valid_moves] and [Queen.valid_moves];
    [fuel] bounds the number of iterations. *)
Fixpoint sweep (fuel : nat) (b : Board) (c : Color) (to_col to_row : Z)
    (coords : Z * Z) (valid_moves : list string) : result (list string) :=
  match fuel with
  | O => OutOfFuel
  | S fuel' =>
      let to_col := to_col + fst coords in
      let to_row := to_row + snd coords in
      if negb ((to_col <=? 7) && (0 <=? to_col) && (to_row <=? 7) && (0 <=? to_row))
      then Ok valid_moves
      else
        target_pos <- index_to_coord to_col to_row ;;
        valid_moves <- visit b c target_pos valid_moves ;;
        sweep fuel' b c to_col to_row coords valid_moves
  end.

(** Nine iterations are enough for every start: the first step either
    leaves the grid or enters it, and a line of the grid has eight squares
    ([sweep_fuel_enough]). *)
Definition sweep_fuel : nat := 9.

(** [Bishop.valid_moves] *)
Definition bishop_valid_moves (b : Board) (self : Piece) : result (list string) :=
  start <- coord_to_index (position self) ;;
  let '(start_col, start_row) := start in
  let direction := [(-1, 1); (1, 1); (-1, -1); (1, -1)] in
  for_each direction
    (fun valid_moves coords =>
       sweep sweep_fuel b (color self) start_col start_row coords valid_moves)
    [].

(** [Queen.valid_moves] *)
Definition queen_valid_moves (b : Board) (self : Piece) : result (list string) :=
  start <- coord_to_index (position self) ;;
  let '(start_col, start_row) := start in
  let direction :=
    [(-1, 0); (1, 0); (0, -1); (0, 1); (-1, -1); (-1, 1); (1, -1); (1, 1)] in
  for_each direction
    (fun valid_moves coords =>
       sweep sweep_fuel b (color self) start_col start_row coords valid_moves)
    [].

(** The loop body shared by [Knight.valid_moves] and [King.valid_moves]:
    one fixed offset, kept when it is on the grid and the square is open
    or holds an opponent ([or] does not evaluate its second operand when
    the first is true). *)
Definition step_to (b : Board) (c : Color) (start_col start_row : Z)
    (valid_moves : list string) (offset : Z * Z) : result (list string) :=
  let to_col := start_col + fst offset in
  let to_row := start_row + snd offset in
  if (0 <=? to_col) && (to_col <? 8) && (0 <=? to_row) && (to_row <? 8) then
    pos <- index_to_coord to_col to_row ;;
    ok <- (if is_square_open b pos then Ok true
           else is_opponent b (PStr pos) c) ;;
    if ok then Ok (valid_moves ++ [pos]) else Ok valid_moves
  else Ok valid_moves.

(** [Knight.valid_moves] *)
Definition knight_valid_moves (b : Board) (self : Piece) : result (list string) :=
  start <- coord_to_index (position self) ;;
  let '(start_col, start_row) := start in
  let direction :=
    [(2, 1); (1, 2); (-1, 2); (-2, 1); (-2, -1); (-1, -2); (1, -2); (2, -1)] in
  for_each direction (step_to b (color self) start_col start_row) [].

(** [King.valid_moves] *)
Definition king_valid_moves (b : Board) (self : Piece) : result (list string) :=
  start <- coord_to_index (position self) ;;
  let '(start_col, start_row) := start in
  let direction :=
    [(-1, 0); (1, 0); (0, -1); (0, 1); (-1, -1); (-1, 1); (1, -1); (1, 1)] in
  for_each direction (step_to b (color self) start_col start_row) [].

(** [piece.valid_moves()], dispatched on the class of the object. *)
Definition valid_moves (b : Board) (self : Piece) : result (list string) :=
  match kind self with
  | Pawn => pawn_valid_moves b self
  | Rook => rook_valid_moves b self
  | Knight => knight_valid_moves b self
  | Bishop => bishop_valid_moves b self
  | Queen => queen_valid_moves b self
  | King => king_valid_moves b self
  end.

(** ** The game ([basic_chess.py]) *)

(** The attributes of a [ChessGame].  [_pieces], the table of glyphs, is
    constant and only read by printing code; it is left out. *)
Record ChessGame : Type := mkGame {
  game_state : string;
  player_turn : Color;
  init_pos : Board
}.

(** Methods that may assign to the game: the outcome of the call and the
    game as the call leaves it (also when the call raises). *)
Definition M (A : Type) : Type := ChessGame -> result A * ChessGame.

Definition ret {A : Type} (a : A) : M A := fun g => (Ok a, g).

Definition bind {A B : Type} (m : M A) (k : A -> M B) : M B :=
  fun g =>
    match m g with
    | (Ok a, g') => k a g'
    | (Raise e, g') => (Raise e, g')
    | (OutOfFuel, g') => (OutOfFuel, g')
    end.

(** A computation that only reads the game. *)
Definition reading {A : Type} (f : ChessGame -> result A) : M A :=
  fun g => (f g, g).

Declare Scope game_scope.
Delimit Scope game_scope with game.
Notation "x <- m ;; k" := (bind m (fun x => k))
  (at level 100, m at next level, right associativity) : game_scope.
Notation "m ;;; k" := (bind m (fun _ => k))
  (at level 100, right associativity) : game_scope.

Definition get_game_state : M string := fun g => (Ok (game_state g), g).

Definition get_player_turn : M Color := fun g => (Ok (player_turn g), g).

Definition all_states : list string := ["UNFINISHED"; "WHITE_WON"; "BLACK_WON"].

(** A value handed to [set_game_state].  The method accepts any object;
    only a string can be equal to one of the three states, so that
    [game_state in all_states] is false for every other value. *)
Inductive PyValue : Type :=
| PyStr (s : string)
| PyInt (n : Z)
| PyBool (b : bool)
| PyNone.

Definition set_game_state (new_state : PyValue) : M unit :=
  fun g =>
    match new_state with
    | PyStr s =>
        if existsb (String.eqb s) all_states
        then (Ok tt, {| game_state := s;
                        player_turn := player_turn g;
                        init_pos := init_pos g |})
        else (Raise InvalidStateError, g)
    | _ => (Raise InvalidStateError, g)
    end.

Definition toggle_turn : M unit :=
  fun g =>
    (Ok tt, {| game_state := game_state g;
               player_turn := match player_turn g with
                              | WHITE => BLACK
                              | BLACK => WHITE
                              end;
               init_pos := init_pos g |}).

(** [ChessGame.is_valid_move] (its messages are not modelled). *)
Definition is_valid_move (g : ChessGame) (move_from move_to : Z * Z) : result bool :=
  piece <- get_piece (init_pos g) (PTuple (fst move_from) (snd move_from)) ;;
  match piece with
  | None => Ok false
  | Some piece =>
      valid_moves <- valid_moves (init_pos g) piece ;;
      target_square <- index_to_coord (fst move_to) (snd move_to) ;;
      if negb (existsb (String.eqb target_square) valid_moves)
      then Ok false
      else Ok true
  end.

(** What [display_board] can raise while it fills its 8 x 8 list of rows:
    [coord_to_index] on a key, and [display_board[row][col]] when an index
    is outside [-8, 8).  The printed text is not modelled.  Python visits
    the keys in insertion order, which the map does not record: when the
    keys fail in different ways the model reports one of the failures. *)
Definition display_cell (position : string) : result unit :=
  idx <- coord_to_index position ;;
  let '(col, row) := idx in
  if (-8 <=? row) && (row <? 8) && (-8 <=? col) && (col <? 8)
  then Ok tt
  else Raise IndexError.

Definition display_board : M unit :=
  reading (fun g =>
    for_each (map_to_list (init_pos g))
      (fun _ item => display_cell (fst item)) tt).

(** [self._init_pos.pop(key)] *)
Definition pop_square (key : string) : M Piece :=
  fun g =>
    match init_pos g !! key with
    | None => (Raise KeyError, g)
    | Some piece =>
        (Ok piece, {| game_state := game_state g;
                      player_turn := player_turn g;
                      init_pos := delete key (init_pos g) |})
    end.

(** [self._init_pos[key] = piece] *)
Definition store_square (key : string) (piece : Piece) : M unit :=
  fun g =>
    (Ok tt, {| game_state := game_state g;
               player_turn := player_turn g;
               init_pos := <[key := piece]> (init_pos g) |}).

(** An assignment to attributes of the piece object stored under [key]. *)
Definition update_piece (key : string) (f : Piece -> Piece) : M unit :=
  fun g =>
    (Ok tt, {| game_state := game_state g;
               player_turn := player_turn g;
               init_pos := alter f key (init_pos g) |}).

Definition set_position (to_square : string) (p : Piece) : Piece :=
  {| kind := kind p; color := color p; position := to_square;
     init_move := init_move p |}.

Definition set_init_move (flag : bool) (p : Piece) : Piece :=
  {| kind := kind p; color := color p; position := position p;
     init_move := Some flag |}.

Definition is_king (target_piece : option Piece) : bool :=
  match target_piece with
  | Some q => kind_eqb (kind q) King
  | None => false
  end.

(** [ChessGame.make_move] *)
Definition make_move (move_from move_to : Z * Z) : M bool :=
  (state <- get_game_state ;;
   if negb (state =? "UNFINISHED")%string then ret false else
   piece <- reading (fun g =>
              get_piece (init_pos g) (PTuple (fst move_from) (snd move_from))) ;;
   target_piece <- reading (fun g =>
              get_piece (init_pos g) (PTuple (fst move_to) (snd move_to))) ;;
   turn <- get_player_turn ;;
   match piece with
   | None => ret false
   | Some piece =>
       if negb (color_eqb (color piece) turn) then ret false else
       valid <- reading (fun g => is_valid_move g move_from move_to) ;;
       if negb valid then ret false else
       from_square <- reading (fun _ =>
                         index_to_coord (fst move_from) (snd move_from)) ;;
       to_square <- reading (fun _ =>
                       index_to_coord (fst move_to) (snd move_to)) ;;
       (if is_king target_piece
        then set_game_state (PyStr (match color piece with
                                    | WHITE => "WHITE_WON"
                                    | BLACK => "BLACK_WON"
                                    end))
        else ret tt) ;;;
       pop_square from_square ;;;
       store_square to_square piece ;;;
       update_piece to_square (set_position to_square) ;;;
       update_piece to_square (set_init_move false) ;;;
       display_board ;;;
       state <- get_game_state ;;
       (if (state =? "UNFINISHED")%string then toggle_turn else ret tt) ;;;
       ret true
   end)%game.

(** [ChessGame.parse_position]: the two exceptions of the [except] clause
    become the pair [(None, None)]. *)
Definition parse_position (from_pos to_pos : string)
  : result (option (Z * Z) * option (Z * Z)) :=
  match (f <- coord_to_index from_pos ;;
         t <- coord_to_index to_pos ;;
         Ok (Some f, Some t)) with
  | Raise ValueError | Raise IndexError => Ok (None, None)
  | r => r
  end.

(** One iteration of the loop of [main], on the tokens that
    [input(...).strip().split()] produced. *)
Definition main_iteration (curr_move : list string) : M unit :=
  (from_tok <- reading (fun _ => match nth_error curr_move 0 with
                                 | Some s => Ok s
                                 | None => Raise IndexError
                                 end) ;;
   to_tok <- reading (fun _ => match nth_error curr_move 1 with
                               | Some s => Ok s
                               | None => Raise IndexError
                               end) ;;
   parsed <- reading (fun _ => parse_position from_tok to_tok) ;;
   match parsed with
   | (Some move_from, Some move_to) =>
       is_valid <- reading (fun g => is_valid_move g move_from move_to) ;;
       if is_valid then (make_move move_from move_to ;;; ret tt) else ret tt
   | _ => ret tt
   end)%game.

(** [ChessGame._board_start]: the starting dictionary. *)
Definition board_start : Board :=
  list_to_map
    [ ("a8", new_piece Rook BLACK "a8"); ("b8", new_piece Knight BLACK "b8");
      ("c8", new_piece Bishop BLACK "c8"); ("d8", new_piece King BLACK "d8");
      ("e8", new_piece Queen BLACK "e8"); ("f8", new_piece Bishop BLACK "f8");
      ("g8", new_piece Knight BLACK "g8"); ("h8", new_piece Rook BLACK "h8");
      ("a7", new_piece Pawn BLACK "a7"); ("b7", new_piece Pawn BLACK "b7");
      ("c7", new_piece Pawn BLACK "c7"); ("d7", new_piece Pawn BLACK "d7");
      ("e7", new_piece Pawn BLACK "e7"); ("f7", new_piece Pawn BLACK "f7");
      ("g7", new_piece Pawn BLACK "g7"); ("h7", new_piece Pawn BLACK "h7");
      ("a2", new_piece Pawn WHITE "a2"); ("b2", new_piece Pawn WHITE "b2");
      ("c2", new_piece Pawn WHITE "c2"); ("d2", new_piece Pawn WHITE "d2");
      ("e2", new_piece Pawn WHITE "e2"); ("f2", new_piece Pawn WHITE "f2");
      ("g2", new_piece Pawn WHITE "g2"); ("h2", new_piece Pawn WHITE "h2");
      ("a1", new_piece Rook WHITE "a1"); ("b1", new_piece Knight WHITE "b1");
      ("c1", new_piece Bishop WHITE "c1"); ("d1", new_piece Queen WHITE "d1");
      ("e1", new_piece King WHITE "e1"); ("f1", new_piece Bishop WHITE "f1");
      ("g1", new_piece Knight WHITE "g1"); ("h1", new_piece Rook WHITE "h1") ].

(** [ChessGame.__init__] *)
Definition new_game : ChessGame :=
  {| game_state := "UNFINISHED"; player_turn := WHITE; init_pos := board_start |}.

(** ** Vocabulary of the properties *)

(** The 64 square notations: a file letter a-h and a rank digit 1-8. *)
Definition files : list string := ["a"; "b"; "c"; "d"; "e"; "f"; "g"; "h"].
Definition ranks : list string := ["1"; "2"; "3"; "4"; "5"; "6"; "7"; "8"].
Definition all_squares : list string :=
  flat_map (fun f => map (fun r => f +:+ r) ranks) files.

Definition is_square (s : string) : bool := existsb (String.eqb s) all_squares.

(** A piece object as the constructors and [make_move] leave it: it stands
    on a square of the grid, and a pawn has its first-move flag. *)
Definition piece_ok (p : Piece) : bool :=
  is_square (position p) &&
  match kind p, init_move p with
  | Pawn, None => false
  | _, _ => true
  end.

(** The invariant of the board dictionary: every key is a square of the
    grid and the piece stored under it records that key as its position. *)
Definition entry_ok (item : string * Piece) : bool :=
  piece_ok (snd item) && (position (snd item) =? fst item)%string.

Definition wf_board (b : Board) : Prop :=
  forallb entry_ok (map_to_list b) = true.

(** The values that [set_game_state] recognises. *)
Definition recognised (v : PyValue) : Prop :=
  exists s, v = PyStr s /\ In s all_states.

Definition other (c : Color) : Color :=
  match c with WHITE => BLACK | BLACK => WHITE end.

Definition won (c : Color) : string :=
  match c with WHITE => "WHITE_WON" | BLACK => "BLACK_WON" end.

(** A sequence of [make_move] calls: the outcomes and the final game. *)
Fixpoint play (moves : list ((Z * Z) * (Z * Z))) (g : ChessGame)
  : list (result bool) * ChessGame :=
  match moves with
  | [] => ([], g)
  | (move_from, move_to) :: moves' =>
      let '(r, g') := make_move move_from move_to g in
      let '(rs, g'') := play moves' g' in
      (r :: rs, g'')
  end.

(** The starting position of chess, written from the rules of the game
    (not from the source): rooks, knights, bishops on the a/h, b/g, c/f
    files, the queens on the d file, the kings on the e file, the pawns on
    ranks 2 and 7. *)
Definition back_rank : list (string * Kind) :=
  [("a", Rook); ("b", Knight); ("c", Bishop); ("d", Queen);
   ("e", King); ("f", Bishop); ("g", Knight); ("h", Rook)].

Definition canonical_start : Board :=
  list_to_map
    (map (fun '(f, k) => (f +:+ "8", new_piece k BLACK (f +:+ "8"))) back_rank
     ++ map (fun f => (f +:+ "7", new_piece Pawn BLACK (f +:+ "7"))) files
     ++ map (fun f => (f +:+ "2", new_piece Pawn WHITE (f +:+ "2"))) files
     ++ map (fun '(f, k) => (f +:+ "1", new_piece k WHITE (f +:+ "1"))) back_rank).

(** The games that the public methods produce from a new game, whatever
    the outcome of each call. *)
Inductive reachable : ChessGame -> Prop :=
| reach_new : reachable new_game
| reach_make_move g move_from move_to :
    reachable g -> reachable (snd (make_move move_from move_to g))
| reach_set_game_state g v :
    reachable g -> reachable (snd (set_game_state v g))
| reach_toggle_turn g :
    reachable g -> reachable (snd (toggle_turn g)).

(** What every destination that [valid_moves] returns satisfies, for a
    piece of colour [c] whose position reads as [(start_col, start_row)]:
    it is the notation of another coordinate on the files a-h, and it is
    an empty square of the grid or holds a piece of the other colour. *)
Definition target_ok (b : Board) (c : Color) (start_col start_row : Z)
    (m : string) : Prop :=
  exists col row,
    index_to_coord col row = Ok m /\
    (col <> start_col \/ row <> start_row) /\
    0 <= col < 8 /\
    ((0 <= row < 8 /\ b !! m = None) \/
     (exists q, b !! m = Some q /\ color q <> c)).

(** The directions of the sliding pieces: one step along a line. *)
Definition unit_dir (dc dr : Z) : Prop :=
  (dc = -1 \/ dc = 0 \/ dc = 1) /\ (dr = -1 \/ dr = 0 \/ dr = 1) /\
  (dc <> 0 \/ dr <> 0).

(** The number of iterations a sweep in direction [(dc, dr)] has left
    once it stands on [(col, row)]. *)
Definition pot (dc dr col row : Z) : Z :=
  if dc =? 1 then 8 - col
  else if dc =? -1 then col + 1
  else if dr =? 1 then 8 - row
  else row + 1.

(** The piece object after [make_move] has assigned its attributes, and
    the game that an accepted move leaves: [king] tells whether the
    destination held a king. *)
Definition moved_piece (to_square : string) (p : Piece) : Piece :=
  set_init_move false (set_position to_square p).

Definition moved_game (g : ChessGame) (p : Piece) (from_square to_square : string)
    (king : bool) : ChessGame :=
  {| game_state := if king then won (color p) else game_state g;
     player_turn := if king then player_turn g else other (player_turn g);
     init_pos := <[to_square := moved_piece to_square p]>
                   (delete from_square (init_pos g)) |}.

(** The direction of travel of a pawn, and the square [n] steps ahead of
    it on its file. *)
Definition pawn_direction (c : Color) : Z :=
  match c with WHITE => 1 | BLACK => -1 end.

Definition ahead (p : Piece) (n : Z) : result string :=
  start <- coord_to_index (position p) ;;
  index_to_coord (fst start) (snd start - n * pawn_direction (color p)).

(** The double forward step is in the list of legal destinations. *)
Definition double_legal (b : Board) (p : Piece) : Prop :=
  exists ms dbl, valid_moves b p = Ok ms /\ ahead p 2 = Ok dbl /\ In dbl ms.






(** ** Vocabulary of the further properties *)

(** A square that a piece of colour [c] may move onto: it is empty or it
    holds a piece of the other colour. *)
Definition occupiable (b : Board) (c : Color) (x : string) : Prop :=
  b !! x = None \/ exists q, b !! x = Some q /\ color q <> c.

(** The lists named [direction] in the five classes that have one. *)
Definition rook_directions : list (Z * Z) := [(0, 1); (1, 0); (0, -1); (-1, 0)].

Definition bishop_directions : list (Z * Z) :=
  [(-1, 1); (1, 1); (-1, -1); (1, -1)].

Definition queen_directions : list (Z * Z) :=
  [(-1, 0); (1, 0); (0, -1); (0, 1); (-1, -1); (-1, 1); (1, -1); (1, 1)].

Definition knight_directions : list (Z * Z) :=
  [(2, 1); (1, 2); (-1, 2); (-2, 1); (-2, -1); (-1, -2); (1, -2); (2, -1)].

(** [x] is the notation of a square of the grid, [k >= 1] steps from
    [(col, row)] along one of the directions [dirs], that a piece of colour
    [c] may move onto. *)
Definition on_line (b : Board) (c : Color) (col row : Z) (dirs : list (Z * Z))
    (x : string) : Prop :=
  exists d k,
    In d dirs /\ 1 <= k /\
    in_grid (col + k * fst d) (row + k * snd d) = true /\
    index_to_coord (col + k * fst d) (row + k * snd d) = Ok x /\
    occupiable b c x.

(** The same at exactly one step. *)
Definition one_step (b : Board) (c : Color) (col row : Z) (dirs : list (Z * Z))
    (x : string) : Prop :=
  exists d,
    In d dirs /\
    in_grid (col + fst d) (row + snd d) = true /\
    index_to_coord (col + fst d) (row + snd d) = Ok x /\
    occupiable b c x.

(** ** Rendering ([display_board] and the [unicode] methods) *)

(** [piece.unicode()]: the code point of the glyph of the piece. *)
Definition unicode (self : Piece) : Z :=
  match kind self, color self with
  | Pawn, WHITE => 0x2659 | Pawn, BLACK => 0x265F
  | Rook, WHITE => 0x2656 | Rook, BLACK => 0x265C
  | Knight, WHITE => 0x2658 | Knight, BLACK => 0x265E
  | Bishop, WHITE => 0x2657 | Bishop, BLACK => 0x265D
  | Queen, WHITE => 0x2655 | Queen, BLACK => 0x265B
  | King, WHITE => 0x2654 | King, BLACK => 0x265A
  end.

(** The position that a Python index [i] has in a list: indices from
    [-len(l)] to [-1] count from the end, anything outside
    [-len(l), len(l)) raises [IndexError]. *)
Definition py_index {A : Type} (l : list A) (i : Z) : result nat :=
  let n := Z.of_nat (length l) in
  if (0 <=? i) && (i <? n) then Ok (Z.to_nat i)
  else if (- n <=? i) && (i <? 0) then Ok (Z.to_nat (n + i))
  else Raise IndexError.

(** The body of the first loop of [display_board]:
    [display_board[row][col] = piece.unicode()], on the rows of code
    points. *)
Definition display_put (grid : list (list Z)) (item : string * Piece)
  : result (list (list Z)) :=
  idx <- coord_to_index (fst item) ;;
  let '(col, row) := idx in
  r <- py_index grid row ;;
  match grid !! r with
  | None => Raise IndexError
  | Some line =>
      c <- py_index line col ;;
      Ok (<[r := <[c := unicode (snd item)]> line]> grid)
  end.

(** The 8 x 8 list of blanks that the loop starts from. *)
Definition blank_grid : list (list Z) := replicate 8 (replicate 8 32).

(** The first loop of [display_board], over the items of the dictionary
    in the order [items]. *)
Definition display_grid (items : list (string * Piece))
  : result (list (list Z)) :=
  for_each items display_put blank_grid.

(** A string literal as the list of its code points. *)
Definition text (s : string) : list Z := map Py.ord (list_ascii_of_string s).

(** [' '.join(row)] *)
Definition join_spaces (row : list Z) : list Z :=
  match row with
  | [] => []
  | g :: rest => g :: flat_map (fun h => [32; h]) rest
  end.

Definition row_label (row_num : Z) : string :=
  if row_num =? 8 then "Black Home Rank"
  else if (row_num =? 7) || (row_num =? 6) || (row_num =? 5) then "-"
  else if (row_num =? 4) || (row_num =? 3) || (row_num =? 2) then "+"
  else if row_num =? 1 then "White Home Rank"
  else "".

(** The second loop of [display_board]: one printed line per row. *)
Fixpoint display_rows (rows : list (list Z)) (row_num : Z) : list (list Z) :=
  match rows with
  | [] => []
  | row :: rows' =>
      (text (Py.str row_num) ++ text "| " ++ join_spaces row ++ text " | "
       ++ text (row_label row_num))
      :: display_rows rows' (row_num - 1)
  end.

Definition color_name (c : Color) : string :=
  match c with WHITE => "WHITE" | BLACK => "BLACK" end.

(** The lines that [display_board] prints, for the items of the
    dictionary visited in the order [items]; the last [print] ends in a
    line feed of its own and so leaves an empty line. *)
Definition display_text (items : list (string * Piece)) (g : ChessGame)
  : result (list (list Z)) :=
  grid <- display_grid items ;;
  Ok ([text "   A B C D E F G H"]
      ++ display_rows grid 8
      ++ [text "   A B C D E F G H"]
      ++ [if (game_state g =? "WHITE_WON")%string
          then text "WHITE wins by capturing the BLACK king!"
          else if (game_state g =? "BLACK_WON")%string
          then text "BLACK wins by capturing the WHITE king!"
          else text "Player Move: " ++ text (color_name (player_turn g))]
      ++ [text "Game State: " ++ text (game_state g); []]).

(** The code point shown at [(col, row)] of a grid. *)
Definition cell (grid : list (list Z)) (col row : Z) : option Z :=
  match grid !! Z.to_nat row with
  | Some line => line !! Z.to_nat col
  | None => None
  end.

(** Eight rows of eight cells. *)
Definition dims (grid : list (list Z)) : Prop :=
  length grid = 8%nat /\ Forall (fun line => length line = 8%nat) grid.

(** What a square of the board shows: the glyph of its piece, or a blank. *)
Definition glyph (b : Board) (s : string) : Z :=
  match b !! s with
  | Some p => unicode p
  | None => 32
  end.

(** * Properties *)

(** ** Strings and coordinates *)

Example coord_e2 : coord_to_index "e2" = Ok (4, 6).
Proof. reflexivity. Qed.

Example coord_upper_E2 : coord_to_index "E2" = Ok (4, 6).
Proof. reflexivity. Qed.

Example index_4_6 : index_to_coord 4 6 = Ok "e2".
Proof. reflexivity. Qed.

Example index_off_grid : index_to_coord 0 13 = Ok "a-5".
Proof. reflexivity. Qed.

Example index_no_letter : index_to_coord (-200) 0 = Raise ValueError.
Proof. reflexivity. Qed.

Example int_examples :
  Py.int " 1_0 " = Ok 10 /\ Py.int "+7" = Ok 7 /\ Py.int "-07" = Ok (-7) /\
  Py.int "1__0" = Raise ValueError /\ Py.int "_1" = Raise ValueError /\
  Py.int "" = Raise ValueError /\ Py.int "x" = Raise ValueError /\
  Py.int "1_" = Raise ValueError /\ Py.int "- 1" = Raise ValueError.
Proof. repeat split; reflexivity. Qed.

Example pawn_e2_start :
  valid_moves board_start (new_piece Pawn WHITE "e2") = Ok ["e3"; "e4"].
Proof. vm_compute. reflexivity. Qed.

Example knight_b1_start :
  valid_moves board_start (new_piece Knight WHITE "b1") = Ok ["a3"; "c3"].
Proof. vm_compute. reflexivity. Qed.

Example first_move_e2_e4 :
  make_move (4, 6) (4, 4) new_game
  = (Ok true, moved_game new_game (new_piece Pawn WHITE "e2") "e2" "e4" false).
Proof. vm_compute. reflexivity. Qed.

Example upper_case_origin_raises :
  fst (make_move (-28, 6) (4, 4) new_game) = Raise KeyError.
Proof. vm_compute. reflexivity. Qed.

Lemma to_int_not_nil (n : Z) : Z.to_int n <> Pos Nil /\ Z.to_int n <> Neg Nil.
Proof.
  destruct n as [|p|p]; simpl; split; try discriminate;
    intros H; injection H as H; exact (Unsigned.to_uint_nonnil p H).
Qed.

Lemma str_inj (n n' : Z) : Py.str n = Py.str n' -> n = n'.
Proof.
  unfold Py.str. intros H.
  destruct (to_int_not_nil n) as [Hp Hn].
  destruct (to_int_not_nil n') as [Hp' Hn'].
  pose proof (NilZero.isi _ Hp Hn) as E.
  pose proof (NilZero.isi _ Hp' Hn') as E'.
  rewrite H in E. rewrite E in E'. injection E' as E'.
  now apply DecimalZ.to_int_inj.
Qed.

Lemma lower_uint (d : uint) :
  Py.lower (NilEmpty.string_of_uint d) = NilEmpty.string_of_uint d.
Proof. induction d; simpl; try rewrite IHd; reflexivity. Qed.

Lemma lower_str (n : Z) : Py.lower (Py.str n) = Py.str n.
Proof.
  unfold Py.str.
  destruct (Z.to_int n) as [d|d]; simpl; destruct d; simpl;
    try rewrite lower_uint; reflexivity.
Qed.

Lemma lower_char_idem (a : ascii) : Py.lower_char (Py.lower_char a) = Py.lower_char a.
Proof. destruct a as [[] [] [] [] [] [] [] []]; reflexivity. Qed.


Lemma in_grid_spec (col row : Z) :
  in_grid col row = true <-> 0 <= col < 8 /\ 0 <= row < 8.
Proof. unfold in_grid. rewrite !andb_true_iff. lia. Qed.

Lemma chr_ok (n : Z) :
  0 <= n < 256 -> Py.chr n = Ok (String (ascii_of_N (Z.to_N n)) EmptyString).
Proof.
  intros H. unfold Py.chr.
  replace ((0 <=? n) && (n <? 256)) with true; [reflexivity|].
  symmetry. apply andb_true_iff. lia.
Qed.

Lemma chr_inv (n : Z) (s : string) :
  Py.chr n = Ok s ->
  0 <= n < 256 /\ s = String (ascii_of_N (Z.to_N n)) EmptyString.
Proof.
  unfold Py.chr. destruct ((0 <=? n) && (n <? 256)) eqn:E; [|discriminate].
  apply andb_true_iff in E. intros [= <-]. split; [lia|reflexivity].
Qed.


Lemma index_to_coord_inv (col row : Z) (s : string) :
  index_to_coord col row = Ok s ->
  0 <= col + 97 < 256 /\
  s = String (ascii_of_N (Z.to_N (col + 97))) (Py.str (7 - row + 1)).
Proof.
  unfold index_to_coord. destruct (Py.chr (col + 97)) as [l| |] eqn:E;
    simpl; try discriminate.
  apply chr_inv in E as [Hr ->]. intros [= <-]. split; [lia|reflexivity].
Qed.

Lemma index_to_coord_ok (col row : Z) :
  0 <= col + 97 < 256 ->
  index_to_coord col row
  = Ok (String (ascii_of_N (Z.to_N (col + 97))) (Py.str (7 - row + 1))).
Proof. intros H. unfold index_to_coord. rewrite chr_ok by lia. reflexivity. Qed.

Lemma ascii_of_N_inj (n m : N) :
  (n < 256)%N -> (m < 256)%N -> ascii_of_N n = ascii_of_N m -> n = m.
Proof.
  intros Hn Hm E.
  rewrite <- (N_ascii_embedding n Hn), <- (N_ascii_embedding m Hm).
  now rewrite E.
Qed.

(** Two coordinates with the same notation are the same coordinate. *)
Lemma index_to_coord_inj (c r c' r' : Z) (s : string) :
  index_to_coord c r = Ok s -> index_to_coord c' r' = Ok s -> c = c' /\ r = r'.
Proof.
  intros H H'.
  apply index_to_coord_inv in H as [Hc ->].
  apply index_to_coord_inv in H' as [Hc' E].
  injection E as Ea Es.
  apply ascii_of_N_inj in Ea; [|lia..].
  apply str_inj in Es. lia.
Qed.

(** On the files a-h the notation is already in lower case. *)
Lemma index_to_coord_lower (col row : Z) (s : string) :
  0 <= col < 8 -> index_to_coord col row = Ok s -> Py.lower s = s.
Proof.
  intros Hc H. apply index_to_coord_inv in H as [_ ->].
  cbn [Py.lower]. rewrite lower_str. f_equal.
  assert (col = 0 \/ col = 1 \/ col = 2 \/ col = 3 \/
          col = 4 \/ col = 5 \/ col = 6 \/ col = 7) as Hcases by lia.
  repeat (destruct Hcases as [-> | Hcases]); try subst col; reflexivity.
Qed.

Ltac grid_cases c :=
  let H := fresh "Hcases" in
  assert (c = 0 \/ c = 1 \/ c = 2 \/ c = 3 \/
          c = 4 \/ c = 5 \/ c = 6 \/ c = 7) as H by lia;
  repeat (destruct H as [-> | H]); try subst c.

Lemma grid_square (col row : Z) :
  in_grid col row = true ->
  exists s, index_to_coord col row = Ok s /\ is_square s = true /\
            coord_to_index s = Ok (col, row).
Proof.
  intros H. apply in_grid_spec in H as [Hc Hr].
  grid_cases col; grid_cases row;
    (eexists; split; [reflexivity|split; reflexivity]).
Qed.

Lemma is_square_inv (s : string) :
  is_square s = true ->
  exists col row, in_grid col row = true /\ index_to_coord col row = Ok s.
Proof.
  unfold is_square. rewrite existsb_exists. intros (x & Hin & E).
  apply String.eqb_eq in E. subst x.
  cbv [all_squares files ranks flat_map map app String.append] in Hin.
  repeat (destruct Hin as [<-|Hin];
          [match goal with
           | |- context [Ok (String ?a (String ?d EmptyString))] =>
               exists (Py.ord a - 97), (8 - (Py.ord d - 48)); split; reflexivity
           end|]).
  destruct Hin.
Qed.

Lemma is_square_lower (s : string) : is_square s = true -> Py.lower s = s.
Proof.
  intros H. apply is_square_inv in H as (c & r & Hg & E).
  apply in_grid_spec in Hg. eapply index_to_coord_lower; [|exact E]. lia.
Qed.

Lemma is_square_coord (s : string) :
  is_square s = true ->
  exists col row, in_grid col row = true /\ index_to_coord col row = Ok s /\
                  coord_to_index s = Ok (col, row).
Proof.
  intros H. apply is_square_inv in H as (c & r & Hg & E).
  exists c, r. destruct (grid_square c r Hg) as (s' & E' & _ & Hc).
  rewrite E in E'. injection E' as <-. auto.
Qed.






(** ** Reading the board *)

Lemma color_eqb_eq (a b : Color) : color_eqb a b = true <-> a = b.
Proof. destruct a, b; simpl; split; congruence. Qed.

Lemma in_existsb (x : string) (l : list string) :
  existsb (String.eqb x) l = true <-> In x l.
Proof.
  rewrite existsb_exists. split.
  - intros (y & Hin & E). apply String.eqb_eq in E. now subst y.
  - intros Hin. exists x. split; [exact Hin|apply String.eqb_refl].
Qed.

Lemma is_opponent_str (b : Board) (s : string) (c : Color) :
  is_opponent b (PStr s) c
  = Ok (match b !! Py.lower s with
        | None => false
        | Some q => negb (color_eqb (color q) c)
        end).
Proof. unfold is_opponent, get_piece. simpl. now destruct (b !! Py.lower s). Qed.

Lemma is_square_open_spec (b : Board) (s : string) :
  is_square_open b s = true <-> b !! Py.lower s = None.
Proof.
  unfold is_square_open. destruct (b !! Py.lower s); split; congruence.
Qed.

Lemma is_square_open_name (b : Board) (col row : Z) (s : string) :
  0 <= col < 8 -> index_to_coord col row = Ok s ->
  is_square_open b s = true <-> b !! s = None.
Proof.
  intros Hc E. rewrite is_square_open_spec.
  now rewrite (index_to_coord_lower col row s Hc E).
Qed.

Lemma get_piece_tuple (b : Board) (col row : Z) (s : string) :
  index_to_coord col row = Ok s ->
  get_piece b (PTuple col row) = Ok (b !! Py.lower s).
Proof. intros E. unfold get_piece. now rewrite E. Qed.

(** The outcome of the [if]/[elif] on a square whose notation is in lower
    case: the square is appended exactly when it is empty or holds an
    opponent. *)
Lemma visit_spec (b : Board) (c : Color) (pos : string) (vm : list string) :
  Py.lower pos = pos ->
  (visit b c pos vm = Ok (vm ++ [pos]) /\
   (b !! pos = None \/ exists q, b !! pos = Some q /\ color q <> c)) \/
  (visit b c pos vm = Ok vm /\ exists q, b !! pos = Some q /\ color q = c).
Proof.
  intros Hl. unfold visit, is_square_open. rewrite is_opponent_str, Hl.
  destruct (b !! pos) as [q|] eqn:E; simpl.
  - destruct (color_eqb (color q) c) eqn:Ec; simpl.
    + right. split; [reflexivity|]. exists q. split; [reflexivity|].
      now apply color_eqb_eq.
    + left. split; [reflexivity|]. right. exists q. split; [reflexivity|].
      intros Hc. apply color_eqb_eq in Hc. congruence.
  - left. split; [reflexivity|]. now left.
Qed.

(** ** The loops of [valid_moves] *)

Lemma for_each_ok {A B : Type} (I : A -> Prop) (body : A -> B -> result A)
    (l : list B) (a : A) :
  Forall (fun x => forall a, I a -> exists a', body a x = Ok a' /\ I a') l ->
  I a -> exists a', for_each l body a = Ok a' /\ I a'.
Proof.
  intros Hl. revert a. induction Hl as [|x l Hx _ IH]; intros a Ha; simpl.
  - eauto.
  - destruct (Hx a Ha) as (a' & -> & Ha'). simpl. now apply IH.
Qed.

Section Targets.

Variable b : Board.
Variable c : Color.
Variables start_col start_row : Z.

Let P : string -> Prop := target_ok b c start_col start_row.

(** Visiting a square of the grid other than the start keeps [P]. *)
Lemma visit_ok (col row : Z) (vm : list string) :
  in_grid col row = true ->
  col <> start_col \/ row <> start_row ->
  Forall P vm ->
  exists pos vm', index_to_coord col row = Ok pos /\
                  visit b c pos vm = Ok vm' /\ Forall P vm'.
Proof.
  intros Hg Hne Hvm.
  destruct (grid_square col row Hg) as (pos & E & Hsq & _).
  apply in_grid_spec in Hg.
  exists pos.
  destruct (visit_spec b c pos vm (is_square_lower pos Hsq))
    as [[-> Hocc]|[-> _]].
  - eexists. split; [exact E|]. split; [reflexivity|].
    apply Forall_app. split; [exact Hvm|].
    constructor; [|constructor].
    exists col, row. repeat split; try exact E; try exact Hne; try lia.
    destruct Hocc as [Hn|Hq]; [left; split; [lia|exact Hn]|right; exact Hq].
  - eexists. split; [exact E|]. split; [reflexivity|exact Hvm].
Qed.

Lemma pot_step (dc dr col row : Z) :
  unit_dir dc dr -> pot dc dr (col + dc) (row + dr) = pot dc dr col row - 1.
Proof.
  intros ([-> | [-> | ->]] & [-> | [-> | ->]] & Hnz); unfold pot; simpl; lia.
Qed.

Lemma pot_grid (dc dr col row : Z) :
  unit_dir dc dr -> in_grid col row = true -> 1 <= pot dc dr col row <= 8.
Proof.
  intros ([-> | [-> | ->]] & [-> | [-> | ->]] & Hnz) Hg;
    apply in_grid_spec in Hg; unfold pot; simpl; lia.
Qed.

Lemma sweep_bounds (col row : Z) :
  (col <=? 7) && (0 <=? col) && (row <=? 7) && (0 <=? row) = in_grid col row.
Proof.
  unfold in_grid.
  destruct (col <=? 7) eqn:E1, (0 <=? col) eqn:E2, (row <=? 7) eqn:E3,
    (0 <=? row) eqn:E4, (col <? 8) eqn:E5, (row <? 8) eqn:E6;
    simpl; try reflexivity; lia.
Qed.

(** The [while True] loop: with enough iterations left it returns, and
    it keeps [P]. *)
Lemma sweep_ok (dc dr : Z) (Hd : unit_dir dc dr) :
  forall (fuel : nat) (k : Z) (vm : list string),
    0 <= k ->
    (in_grid (start_col + k * dc + dc) (start_row + k * dr + dr) = true ->
     pot dc dr (start_col + k * dc + dc) (start_row + k * dr + dr)
     < Z.of_nat fuel) ->
    (0 < fuel)%nat ->
    Forall P vm ->
    exists vm',
      sweep fuel b c (start_col + k * dc) (start_row + k * dr) (dc, dr) vm
      = Ok vm' /\ Forall P vm'.
Proof.
  induction fuel as [|fuel IH]; intros k vm Hk Hpot Hfuel Hvm; [lia|].
  cbn [sweep fst snd]. rewrite sweep_bounds.
  destruct (in_grid (start_col + k * dc + dc) (start_row + k * dr + dr))
    eqn:Hg; cbn [negb].
  - assert (start_col + k * dc + dc <> start_col \/
            start_row + k * dr + dr <> start_row) as Hne.
    { destruct Hd as ([-> | [-> | ->]] & [-> | [-> | ->]] & Hnz); lia. }
    destruct (visit_ok _ _ vm Hg Hne Hvm) as (pos & vm' & E1 & E2 & Hvm').
    rewrite E1. cbn [rbind]. rewrite E2. cbn [rbind].
    replace (start_col + k * dc + dc) with (start_col + (k + 1) * dc) by lia.
    replace (start_row + k * dr + dr) with (start_row + (k + 1) * dr) by lia.
    pose proof (pot_grid dc dr _ _ Hd Hg) as Hpg.
    specialize (Hpot eq_refl).
    apply IH; try lia; try exact Hvm'.
    intros _.
    replace (start_col + (k + 1) * dc + dc)
      with (start_col + k * dc + dc + dc) by lia.
    replace (start_row + (k + 1) * dr + dr)
      with (start_row + k * dr + dr + dr) by lia.
    rewrite (pot_step dc dr _ _ Hd). lia.
  - eauto.
Qed.

Lemma sweep_start_ok (dc dr : Z) (vm : list string) :
  unit_dir dc dr -> Forall P vm ->
  exists vm',
    sweep sweep_fuel b c start_col start_row (dc, dr) vm = Ok vm' /\
    Forall P vm'.
Proof.
  intros Hd Hvm.
  pose proof (sweep_ok dc dr Hd sweep_fuel 0 vm) as H.
  replace (start_col + 0 * dc) with start_col in H by lia.
  replace (start_row + 0 * dr) with start_row in H by lia.
  apply H; try lia; try exact Hvm.
  - intros Hg. pose proof (pot_grid dc dr _ _ Hd Hg). unfold sweep_fuel. lia.
  - unfold sweep_fuel. lia.
Qed.

(** The [for move in range(1, 8)] loop of the rook. *)
Lemma rook_ray_ok (dc dr : Z) (Hd : dc <> 0 \/ dr <> 0) :
  forall (moves : list Z) (vm : list string),
    Forall (fun k => 1 <= k) moves -> Forall P vm ->
    exists vm',
      rook_ray b c start_col start_row (dc, dr) moves vm = Ok vm' /\
      Forall P vm'.
Proof.
  induction moves as [|k moves IH]; intros vm Hk Hvm; cbn [rook_ray fst snd].
  - eauto.
  - inversion Hk as [|? ? Hk1 Hks]; subst.
    change ((0 <=? start_col + dc * k) && (start_col + dc * k <? 8) &&
            (0 <=? start_row + dr * k) && (start_row + dr * k <? 8))
      with (in_grid (start_col + dc * k) (start_row + dr * k)).
    destruct (in_grid (start_col + dc * k) (start_row + dr * k)) eqn:Hg;
      cbn [negb]; [|eauto].
    assert (start_col + dc * k <> start_col \/
            start_row + dr * k <> start_row) as Hne by nia.
    destruct (visit_ok _ _ vm Hg Hne Hvm) as (pos & vm' & E1 & E2 & Hvm').
    rewrite E1. cbn [rbind]. rewrite E2. cbn [rbind]. now apply IH.
Qed.

(** One offset of the knight or the king. *)
Lemma step_to_ok (offset : Z * Z) (vm : list string) :
  fst offset <> 0 \/ snd offset <> 0 ->
  Forall P vm ->
  exists vm', step_to b c start_col start_row vm offset = Ok vm' /\
              Forall P vm'.
Proof.
  intros Hnz Hvm. unfold step_to.
  change ((0 <=? start_col + fst offset) && (start_col + fst offset <? 8) &&
          (0 <=? start_row + snd offset) && (start_row + snd offset <? 8))
    with (in_grid (start_col + fst offset) (start_row + snd offset)).
  destruct (in_grid (start_col + fst offset) (start_row + snd offset))
    eqn:Hg; [|eauto].
  assert (start_col + fst offset <> start_col \/
          start_row + snd offset <> start_row) as Hne by lia.
  destruct (visit_ok _ _ vm Hg Hne Hvm) as (pos & vm' & E1 & Hv & Hvm').
  rewrite E1. cbn [rbind]. unfold visit in Hv.
  destruct (is_square_open b pos); cbn [rbind].
  - injection Hv as <-. eauto.
  - destruct (is_opponent b (PStr pos) c) as [[|]| |]; cbn [rbind] in *;
      try discriminate; injection Hv as <-; eauto.
Qed.

End Targets.

(** More iterations than needed do not change the result of a sweep. *)
Lemma sweep_more_fuel (b : Board) (c : Color) (coords : Z * Z) :
  forall (n m : nat) (col row : Z) (vm : list string),
    (n <= m)%nat ->
    sweep n b c col row coords vm <> OutOfFuel ->
    sweep m b c col row coords vm = sweep n b c col row coords vm.
Proof.
  induction n as [|n IH]; intros m col row vm Hnm Hn; [now destruct Hn|].
  destruct m as [|m]; [lia|].
  cbn [sweep] in *.
  destruct (negb _); [reflexivity|].
  destruct (index_to_coord _ _) as [pos| |]; cbn [rbind] in *; try reflexivity.
  destruct (visit b c pos vm) as [vm'| |]; cbn [rbind] in *; try reflexivity.
  apply IH; [lia|exact Hn].
Qed.

Lemma sweep_returns (b : Board) (c : Color) (dc dr : Z) (Hd : unit_dir dc dr) :
  forall (fuel : nat) (x y : Z) (vm : list string),
    (in_grid (x + dc) (y + dr) = true ->
     pot dc dr (x + dc) (y + dr) < Z.of_nat fuel) ->
    (0 < fuel)%nat ->
    exists vm', sweep fuel b c x y (dc, dr) vm = Ok vm'.
Proof.
  induction fuel as [|fuel IH]; intros x y vm Hpot Hfuel; [lia|].
  cbn [sweep fst snd]. rewrite sweep_bounds.
  destruct (in_grid (x + dc) (y + dr)) eqn:Hg; cbn [negb]; [|eauto].
  destruct (grid_square _ _ Hg) as (pos & E & Hsq & _).
  rewrite E. cbn [rbind].
  pose proof (pot_grid dc dr _ _ Hd Hg).
  specialize (Hpot eq_refl).
  destruct (visit_spec b c pos vm (is_square_lower pos Hsq))
    as [[-> _]|[-> _]]; cbn [rbind];
    (apply IH; [intros _; rewrite (pot_step dc dr _ _ Hd); lia|lia]).
Qed.

(** The budget of the model is never the reason a sweep stops: from any
    start, in each of the eight directions, [sweep_fuel] iterations reach
    the [break], and a larger budget gives the same list. *)
Lemma sweep_fuel_enough (b : Board) (c : Color) (col row dc dr : Z)
    (vm : list string) (n : nat) :
  unit_dir dc dr -> (sweep_fuel <= n)%nat ->
  sweep n b c col row (dc, dr) vm = sweep sweep_fuel b c col row (dc, dr) vm /\
  exists vm', sweep sweep_fuel b c col row (dc, dr) vm = Ok vm'.
Proof.
  intros Hd Hn.
  assert (exists vm', sweep sweep_fuel b c col row (dc, dr) vm = Ok vm') as H.
  { apply (sweep_returns b c dc dr Hd); [|unfold sweep_fuel; lia].
    intros Hg. pose proof (pot_grid dc dr _ _ Hd Hg).
    unfold sweep_fuel. lia. }
  split; [|exact H].
  apply sweep_more_fuel; [exact Hn|].
  destruct H as (vm' & ->). discriminate.
Qed.

(** ** [valid_moves] returns, and what it returns *)

Lemma pawn_valid_moves_ok (b : Board) (p : Piece) (c0 r0 : Z) :
  in_grid c0 r0 = true ->
  coord_to_index (position p) = Ok (c0, r0) ->
  init_move p <> None ->
  exists ms, pawn_valid_moves b p = Ok ms /\
             Forall (target_ok b (color p) c0 r0) ms.
Proof.
  intros Hg Hc Hflag. apply in_grid_spec in Hg as [Hc0 Hr0].
  unfold pawn_valid_moves. rewrite Hc. cbn [rbind].
  set (dir := match color p with WHITE => 1 | BLACK => -1 end).
  assert (dir = 1 \/ dir = -1) as Hdir by (unfold dir; destruct (color p); auto).
  assert (forall row s, index_to_coord c0 row = Ok s ->
            is_square_open b s = true -> 0 <= row < 8 -> row <> r0 ->
            target_ok b (color p) c0 r0 s) as Hopen.
  { intros row s E Ho Hrow Hne. exists c0, row.
    repeat split; try exact E; try lia.
    left. split; [lia|]. apply is_square_open_spec in Ho.
    now rewrite (index_to_coord_lower c0 row s Hc0 E) in Ho. }
  assert (exists vm1,
    (if (r0 - dir <? 8) && (0 <=? r0 - dir)
     then
       move_forward <- index_to_coord c0 (r0 - dir);;
       flag <- match init_move p with
               | Some f => Ok f
               | None => Raise AttributeError
               end;;
       (if flag
        then
          if (r0 - 2 * dir <? 8) && (0 <=? r0 - 2 * dir)
          then
            forward_move1 <- index_to_coord c0 (r0 - 2 * dir);;
            (if is_square_open b forward_move1
             then
               Ok ((if is_square_open b move_forward
                    then [move_forward] else []) ++ [forward_move1])
             else
               Ok (if is_square_open b move_forward
                   then [move_forward] else []))
          else Ok (if is_square_open b move_forward
                   then [move_forward] else [])
        else Ok (if is_square_open b move_forward
                 then [move_forward] else []))
     else Ok []) = Ok vm1 /\ Forall (target_ok b (color p) c0 r0) vm1)
    as (vm1 & -> & Hvm1).
  { destruct ((r0 - dir <? 8) && (0 <=? r0 - dir)) eqn:E1;
      [|eexists; split; [reflexivity|constructor]].
    apply andb_true_iff in E1.
    rewrite (index_to_coord_ok c0 (r0 - dir)) by lia. cbn [rbind].
    set (fwd := String _ (Py.str (7 - (r0 - dir) + 1))).
    assert (index_to_coord c0 (r0 - dir) = Ok fwd) as Efwd
        by (apply index_to_coord_ok; lia).
    assert (Forall (target_ok b (color p) c0 r0)
              (if is_square_open b fwd then [fwd] else [])) as Hsingle.
    { destruct (is_square_open b fwd) eqn:Ho; constructor; [|constructor].
      eapply Hopen; eauto; lia. }
    destruct (init_move p) as [[|]|]; [| |contradiction]; cbn [rbind].
    - destruct ((r0 - 2 * dir <? 8) && (0 <=? r0 - 2 * dir)) eqn:E2;
        [|eauto].
      apply andb_true_iff in E2.
      rewrite (index_to_coord_ok c0 (r0 - 2 * dir)) by lia. cbn [rbind].
      set (dbl := String _ (Py.str (7 - (r0 - 2 * dir) + 1))).
      assert (index_to_coord c0 (r0 - 2 * dir) = Ok dbl) as Edbl
          by (apply index_to_coord_ok; lia).
      destruct (is_square_open b dbl) eqn:Ho2; [|eauto].
      eexists. split; [reflexivity|].
      apply Forall_app. split; [exact Hsingle|].
      constructor; [|constructor]. eapply Hopen; eauto; lia.
    - eauto. }
  cbn [rbind].
  apply for_each_ok with (I := Forall (target_ok b (color p) c0 r0));
    [|exact Hvm1].
  assert (forall d, d <> 0 -> forall a : list string,
             Forall (target_ok b (color p) c0 r0) a ->
             exists a' : list string,
               (if (0 <=? c0 + d) && (c0 + d <? 8)
                then
                  cap_pos <- index_to_coord (c0 + d) (r0 - dir);;
                  opp <- is_opponent b (PStr cap_pos) (color p);;
                  (if opp then Ok (a ++ [cap_pos]) else Ok a)
                else Ok a) = Ok a' /\
               Forall (target_ok b (color p) c0 r0) a') as Hcap.
  { intros d Hd a Ha.
    destruct ((0 <=? c0 + d) && (c0 + d <? 8)) eqn:E; [|eauto].
    apply andb_true_iff in E.
    rewrite (index_to_coord_ok (c0 + d) (r0 - dir)) by lia. cbn [rbind].
    set (cap := String _ (Py.str (7 - (r0 - dir) + 1))).
    assert (index_to_coord (c0 + d) (r0 - dir) = Ok cap) as Ecap
        by (apply index_to_coord_ok; lia).
    rewrite is_opponent_str. cbn [rbind].
    rewrite (index_to_coord_lower (c0 + d) (r0 - dir) cap) by (lia || exact Ecap).
    destruct (b !! cap) as [q|] eqn:Eq; [|eauto].
    destruct (color_eqb (color q) (color p)) eqn:Ecol; cbn [negb]; [eauto|].
    eexists. split; [reflexivity|].
    apply Forall_app. split; [exact Ha|]. constructor; [|constructor].
    exists (c0 + d), (r0 - dir).
    repeat split; try exact Ecap; try lia.
    right. exists q. split; [exact Eq|].
    intros Hq. apply color_eqb_eq in Hq. congruence. }
  repeat constructor; intros a Ha; apply Hcap; (lia || exact Ha).
Qed.

Lemma piece_ok_inv (p : Piece) :
  piece_ok p = true ->
  is_square (position p) = true /\ (kind p = Pawn -> init_move p <> None).
Proof.
  unfold piece_ok. intros H. apply andb_true_iff in H as [Hs Hk].
  split; [exact Hs|]. intros E. rewrite E in Hk.
  destruct (init_move p); [discriminate|discriminate Hk].
Qed.

(** [valid_moves] returns a list for every piece that stands on the grid,
    whatever the board, and every destination in the list is [target_ok]. *)
Lemma valid_moves_ok (b : Board) (p : Piece) :
  piece_ok p = true ->
  exists c0 r0 ms,
    in_grid c0 r0 = true /\
    index_to_coord c0 r0 = Ok (position p) /\
    valid_moves b p = Ok ms /\
    Forall (target_ok b (color p) c0 r0) ms.
Proof.
  intros Hp. apply piece_ok_inv in Hp as [Hsq Hflag].
  destruct (is_square_coord _ Hsq) as (c0 & r0 & Hg & Hname & Hc).
  exists c0, r0.
  assert (exists ms, valid_moves b p = Ok ms /\
                     Forall (target_ok b (color p) c0 r0) ms) as (ms & E & H);
    [|exists ms; auto].
  unfold valid_moves. destruct (kind p) eqn:Hk.
  - apply pawn_valid_moves_ok; auto.
  - unfold rook_valid_moves. rewrite Hc. cbn [rbind].
    apply for_each_ok with (I := Forall (target_ok b (color p) c0 r0));
      [|constructor].
    repeat constructor; intros a Ha; apply rook_ray_ok; cbn;
      try lia; try exact Ha; repeat constructor; lia.
  - unfold knight_valid_moves. rewrite Hc. cbn [rbind].
    apply for_each_ok with (I := Forall (target_ok b (color p) c0 r0));
      [|constructor].
    repeat constructor; intros a Ha; apply step_to_ok; cbn;
      try lia; exact Ha.
  - unfold bishop_valid_moves. rewrite Hc. cbn [rbind].
    apply for_each_ok with (I := Forall (target_ok b (color p) c0 r0));
      [|constructor].
    repeat constructor; intros a Ha; apply sweep_start_ok;
      try exact Ha; unfold unit_dir; lia.
  - unfold queen_valid_moves. rewrite Hc. cbn [rbind].
    apply for_each_ok with (I := Forall (target_ok b (color p) c0 r0));
      [|constructor].
    repeat constructor; intros a Ha; apply sweep_start_ok;
      try exact Ha; unfold unit_dir; lia.
  - unfold king_valid_moves. rewrite Hc. cbn [rbind].
    apply for_each_ok with (I := Forall (target_ok b (color p) c0 r0));
      [|constructor].
    repeat constructor; intros a Ha; apply step_to_ok; cbn;
      try lia; exact Ha.
Qed.

Lemma valid_moves_total (b : Board) (p : Piece) :
  piece_ok p = true -> exists ms, valid_moves b p = Ok ms.
Proof.
  intros Hp. destruct (valid_moves_ok b p Hp) as (? & ? & ms & _ & _ & E & _).
  eauto.
Qed.

(** A destination is never the square the piece stands on. *)
Lemma valid_moves_not_own (b : Board) (p : Piece) (ms : list string) :
  piece_ok p = true -> valid_moves b p = Ok ms -> ~ In (position p) ms.
Proof.
  intros Hp E Hin.
  destruct (valid_moves_ok b p Hp) as (c0 & r0 & ms' & _ & Hname & E' & Hall).
  rewrite E in E'. injection E' as <-.
  rewrite List.Forall_forall in Hall.
  destruct (Hall _ Hin) as (col & row & Hm & Hne & _).
  destruct (index_to_coord_inj _ _ _ _ _ Hm Hname). lia.
Qed.

Lemma pawn_moves_shape (b : Board) (p : Piece) (c0 r0 : Z) (ms : list string) :
  0 <= c0 < 8 ->
  coord_to_index (position p) = Ok (c0, r0) ->
  pawn_valid_moves b p = Ok ms ->
  let dir := pawn_direction (color p) in
  forall x,
    In x ms <->
    (0 <= r0 - dir < 8 /\ index_to_coord c0 (r0 - dir) = Ok x /\ b !! x = None) \/
    (0 <= r0 - dir < 8 /\ init_move p = Some true /\ 0 <= r0 - 2 * dir < 8 /\
     index_to_coord c0 (r0 - 2 * dir) = Ok x /\ b !! x = None) \/
    (exists d, (d = -1 \/ d = 1) /\ 0 <= c0 + d < 8 /\
               index_to_coord (c0 + d) (r0 - dir) = Ok x /\
               exists q, b !! x = Some q /\ color q <> color p).
Proof.
  intros Hc0 Hc E dir x.
  unfold pawn_valid_moves in E. rewrite Hc in E. cbn [rbind] in E.
  fold (pawn_direction (color p)) in E. fold dir in E.
  match type of E with
  | rbind ?fw _ = _ => destruct fw as [vm1| |] eqn:Efw; try discriminate
  end.
  cbn [rbind] in E.
  assert (forall row s, index_to_coord c0 row = Ok s ->
            (is_square_open b s = true /\ b !! s = None) \/
            (is_square_open b s = false /\ b !! s <> None)) as Hopen.
  { intros row s Es.
    pose proof (is_square_open_name b c0 row s Hc0 Es) as [H1 H2].
    destruct (is_square_open b s); [left|right]; split; auto.
    intros Hn. apply H2 in Hn. discriminate. }
  assert (forall y,
    In y vm1 <->
    (0 <= r0 - dir < 8 /\ index_to_coord c0 (r0 - dir) = Ok y /\ b !! y = None) \/
    (0 <= r0 - dir < 8 /\ init_move p = Some true /\ 0 <= r0 - 2 * dir < 8 /\
     index_to_coord c0 (r0 - 2 * dir) = Ok y /\ b !! y = None)) as Hfw.
  { intros y.
    destruct ((r0 - dir <? 8) && (0 <=? r0 - dir)) eqn:E1.
    2:{ injection Efw as <-. apply andb_false_iff in E1.
        split; [intros []|]. intros [H|H]; lia. }
    apply andb_true_iff in E1.
    destruct (index_to_coord c0 (r0 - dir)) as [fwd| |] eqn:Efwd;
      cbn [rbind] in Efw; try discriminate.
    destruct (Hopen _ _ Efwd) as [[Hf Hnf]|[Hf Hnf]]; rewrite Hf in Efw;
      (destruct (init_move p) as [[|]|] eqn:Eflag; cbn [rbind] in Efw;
       try discriminate;
       [destruct ((r0 - 2 * dir <? 8) && (0 <=? r0 - 2 * dir)) eqn:E2;
        [apply andb_true_iff in E2;
         destruct (index_to_coord c0 (r0 - 2 * dir)) as [dbl| |] eqn:Edbl;
         cbn [rbind] in Efw; try discriminate;
         destruct (Hopen _ _ Edbl) as [[Hd Hnd]|[Hd Hnd]]; rewrite Hd in Efw
        |apply andb_false_iff in E2]
       |]);
      injection Efw as <-; cbn [In app];
      (split;
       [intros Hin;
        repeat (destruct Hin as [<-|Hin]); try contradiction;
        first [left; repeat split; (lia || assumption)
              |right; repeat split; (lia || assumption)]
       |intros [(_ & Ey & Hn)|(_ & Hfl & Hb2 & Ey & Hn)];
        try discriminate; try lia;
        injection Ey as <-; try contradiction; tauto]). }
  set (C := fun (d : Z) (y : string) =>
              0 <= c0 + d < 8 /\
              index_to_coord (c0 + d) (r0 - dir) = Ok y /\
              exists q, b !! y = Some q /\ color q <> color p).
  assert (forall d (a a' : list string),
    (if (0 <=? c0 + d) && (c0 + d <? 8)
     then
       cap_pos <- index_to_coord (c0 + d) (r0 - dir);;
       opp <- is_opponent b (PStr cap_pos) (color p);;
       (if opp then Ok (a ++ [cap_pos]) else Ok a)
     else Ok a) = Ok a' ->
    forall y, In y a' <-> In y a \/ C d y) as Hcap.
  { intros d a a' Ha y. unfold C.
    destruct ((0 <=? c0 + d) && (c0 + d <? 8)) eqn:Eb.
    2:{ injection Ha as <-. apply andb_false_iff in Eb.
        split; [auto|]. intros [H|(H & _)]; [exact H|lia]. }
    apply andb_true_iff in Eb.
    destruct (index_to_coord (c0 + d) (r0 - dir)) as [cap| |] eqn:Ecap;
      cbn [rbind] in Ha; try discriminate.
    rewrite is_opponent_str in Ha. cbn [rbind] in Ha.
    rewrite (index_to_coord_lower (c0 + d) (r0 - dir) cap) in Ha
      by (lia || exact Ecap).
    destruct (b !! cap) as [q|] eqn:Eq.
    - destruct (color_eqb (color q) (color p)) eqn:Ecol; cbn [negb] in Ha;
        injection Ha as <-.
      + apply color_eqb_eq in Ecol.
        split; [auto|]. intros [H|(_ & [= <-] & q' & Eq' & Hne)]; [exact H|].
        congruence.
      + rewrite in_app_iff. cbn [In].
        split.
        * intros [H|[<-|[]]]; [now left|right].
          split; [lia|]. split; [reflexivity|]. exists q. split; [exact Eq|].
          intros Hc'. apply color_eqb_eq in Hc'. congruence.
        * intros [H|(_ & [= <-] & _)]; auto.
    - injection Ha as <-.
      split; [auto|]. intros [H|(_ & [= <-] & q' & Eq' & _)]; [exact H|].
      congruence. }
  cbn [for_each] in E.
  match type of E with
  | rbind ?s1 _ = _ => destruct s1 as [a1| |] eqn:E1; try discriminate
  end.
  cbn [rbind] in E.
  match type of E with
  | rbind ?s2 _ = _ => destruct s2 as [a2| |] eqn:E2; try discriminate
  end.
  cbn [rbind] in E. injection E as <-.
  rewrite (Hcap _ _ _ E2 x), (Hcap _ _ _ E1 x), (Hfw x).
  unfold C. split.
  - intros [[[H|H]|H]|H]; auto.
    + right. right. exists (-1). split; [now left|exact H].
    + right. right. exists 1. split; [now right|exact H].
  - intros [H|[H|(d & [-> | ->] & H)]]; auto.
Qed.

Lemma pawn_double_iff (b : Board) (p : Piece) (c0 r0 : Z) :
  kind p = Pawn -> piece_ok p = true ->
  coord_to_index (position p) = Ok (c0, r0) ->
  double_legal b p <->
  init_move p = Some true /\
  in_grid c0 (r0 - pawn_direction (color p)) = true /\
  in_grid c0 (r0 - 2 * pawn_direction (color p)) = true /\
  exists dbl, ahead p 2 = Ok dbl /\ b !! dbl = None.
Proof.
  intros Hk Hp Hc.
  destruct (valid_moves_total b p Hp) as (ms & Ems).
  pose proof Hp as Hp'. apply piece_ok_inv in Hp' as [Hsq _].
  destruct (is_square_coord _ Hsq) as (c0' & r0' & Hg & _ & Hc').
  rewrite Hc in Hc'. injection Hc' as <- <-.
  apply in_grid_spec in Hg as [Hc0 Hr0].
  set (dir := pawn_direction (color p)).
  assert (dir = 1 \/ dir = -1) as Hdir
      by (unfold dir, pawn_direction; destruct (color p); auto).
  pose proof Ems as Eshape. unfold valid_moves in Eshape. rewrite Hk in Eshape.
  pose proof (pawn_moves_shape b p c0 r0 ms Hc0 Hc Eshape) as Hshape.
  cbv zeta in Hshape. fold dir in Hshape.
  assert (ahead p 2 = index_to_coord c0 (r0 - 2 * dir)) as Hahead.
  { unfold ahead. rewrite Hc. reflexivity. }
  unfold double_legal. rewrite Hahead. rewrite !in_grid_spec.
  split.
  - intros (ms' & dbl & Ems' & Edbl & Hin).
    rewrite Ems in Ems'. injection Ems' as <-.
    apply Hshape in Hin as [(_ & E1 & _)|[(Hb1 & Hfl & Hb2 & _ & Hn)|
                            (d & Hd & _ & E1 & _)]].
    + destruct (index_to_coord_inj _ _ _ _ _ E1 Edbl). lia.
    + repeat split; try lia; try exact Hfl. exists dbl. auto.
    + destruct (index_to_coord_inj _ _ _ _ _ E1 Edbl). lia.
  - intros (Hfl & (_ & Hb1) & (_ & Hb2) & dbl & Edbl & Hn).
    exists ms, dbl. repeat split; auto.
    apply Hshape. right. left. repeat split; auto; lia.
Qed.

(** ** The invariant of the board *)

Lemma wf_board_lookup (b : Board) (k : string) (p : Piece) :
  wf_board b -> b !! k = Some p -> piece_ok p = true /\ position p = k.
Proof.
  unfold wf_board. rewrite forallb_forall. intros H E.
  apply elem_of_map_to_list in E. apply list_elem_of_In in E.
  specialize (H _ E). unfold entry_ok in H. cbn in H.
  apply andb_true_iff in H as [H1 H2]. apply String.eqb_eq in H2. auto.
Qed.

Lemma wf_board_intro (b : Board) :
  (forall k p, b !! k = Some p -> piece_ok p = true /\ position p = k) ->
  wf_board b.
Proof.
  intros H. unfold wf_board. rewrite forallb_forall. intros [k p] Hin.
  apply list_elem_of_In, elem_of_map_to_list in Hin.
  destruct (H k p Hin) as [H1 H2]. unfold entry_ok. cbn.
  rewrite H1, H2. cbn. apply String.eqb_refl.
Qed.

Lemma wf_board_key (b : Board) (k : string) (p : Piece) :
  wf_board b -> b !! k = Some p -> is_square k = true.
Proof.
  intros H E. destruct (wf_board_lookup b k p H E) as [Hp <-].
  now apply piece_ok_inv in Hp as [Hs _].
Qed.

Lemma new_game_wf : wf_board (init_pos new_game).
Proof. vm_compute. reflexivity. Qed.

Lemma valid_moves_squares (b : Board) (k : string) (p : Piece) (ms : list string) :
  wf_board b -> b !! k = Some p -> valid_moves b p = Ok ms ->
  forall m, In m ms -> is_square m = true.
Proof.
  intros Hwf Ep Ems m Hin.
  destruct (wf_board_lookup b k p Hwf Ep) as [Hp _].
  destruct (valid_moves_ok b p Hp) as (c0 & r0 & ms' & _ & _ & E' & Hall).
  rewrite Ems in E'. injection E' as <-.
  rewrite List.Forall_forall in Hall.
  destruct (Hall _ Hin) as (col & row & Hm & _ & Hcol & [[Hrow _]|(x & Ex & _)]).
  - destruct (grid_square col row) as (s & Es & Hs & _);
      [apply in_grid_spec; lia|].
    rewrite Hm in Es. now injection Es as <-.
  - exact (wf_board_key b m x Hwf Ex).
Qed.

Lemma moved_board_wf (b : Board) (p : Piece) (fs ts : string) :
  wf_board b -> b !! fs = Some p -> is_square ts = true ->
  wf_board (<[ts := moved_piece ts p]> (delete fs b)).
Proof.
  intros Hwf Ep Hts. apply wf_board_intro. intros k x Ex.
  destruct (decide (ts = k)) as [<-|Hne].
  - rewrite lookup_insert_eq in Ex. injection Ex as <-.
    split; [|reflexivity].
    unfold piece_ok, moved_piece, set_init_move, set_position.
    cbn [position kind init_move].
    rewrite Hts. now destruct (kind p).
  - rewrite lookup_insert_ne in Ex by exact Hne.
    apply lookup_delete_Some in Ex as [_ Ex].
    exact (wf_board_lookup b k x Hwf Ex).
Qed.

Lemma display_cells_wf (b : Board) :
  wf_board b ->
  for_each (map_to_list b)
    (fun (_ : unit) (item : string * Piece) => display_cell (fst item)) tt
  = Ok tt.
Proof.
  intros Hwf.
  assert (Forall (fun item : string * Piece => is_square (fst item) = true)
            (map_to_list b)) as Hall.
  { apply List.Forall_forall. intros [k p] Hin.
    apply list_elem_of_In, elem_of_map_to_list in Hin.
    exact (wf_board_key _ _ _ Hwf Hin). }
  induction Hall as [|[k p] l Hk _ IH]; [reflexivity|].
  cbn [for_each fst]. cbn [fst] in Hk.
  destruct (is_square_coord k Hk) as (col & row & Hg & _ & Hc).
  unfold display_cell. rewrite Hc. cbn [rbind].
  apply in_grid_spec in Hg.
  replace ((-8 <=? row) && (row <? 8) && (-8 <=? col) && (col <? 8)) with true.
  - cbn [rbind]. exact IH.
  - symmetry. rewrite !andb_true_iff. lia.
Qed.

(** ** [is_valid_move] and [make_move] *)

Lemma is_valid_move_not_in (g : ChessGame) (f t : Z * Z) (p : Piece)
    (ts : string) (ms : list string) :
  get_piece (init_pos g) (PTuple (fst f) (snd f)) = Ok (Some p) ->
  index_to_coord (fst t) (snd t) = Ok ts ->
  valid_moves (init_pos g) p = Ok ms ->
  ~ In ts ms ->
  is_valid_move g f t = Ok false.
Proof.
  intros Ef Et Ems Hn. unfold is_valid_move. rewrite Ef. cbn [rbind].
  rewrite Ems, Et. cbn [rbind].
  destruct (existsb (String.eqb ts) ms) eqn:E; [|reflexivity].
  apply in_existsb in E. contradiction.
Qed.

Lemma is_valid_move_same_square (g : ChessGame) (f : Z * Z) (fs : string) (p : Piece) :
  wf_board (init_pos g) ->
  index_to_coord (fst f) (snd f) = Ok fs ->
  init_pos g !! Py.lower fs = Some p ->
  is_valid_move g f f = Ok false.
Proof.
  intros Hwf Ef Ep.
  destruct (wf_board_lookup _ _ _ Hwf Ep) as [Hp Hpos].
  destruct (valid_moves_ok (init_pos g) p Hp)
    as (c0 & r0 & ms & Hg & Hname & Ems & Hall).
  eapply is_valid_move_not_in;
    [rewrite (get_piece_tuple (init_pos g) _ _ _ Ef); now rewrite Ep|exact Ef|exact Ems|].
  intros Hin. rewrite List.Forall_forall in Hall.
  destruct (Hall _ Hin) as (col & row & Hm & Hne & Hcol & _).
  pose proof (index_to_coord_lower col row fs Hcol Hm) as Hl.
  rewrite Hl in Hpos. rewrite <- Hpos in Hm.
  destruct (index_to_coord_inj _ _ _ _ _ Hm Hname). lia.
Qed.


Lemma make_move_finished (f t : Z * Z) (g : ChessGame) :
  game_state g <> "UNFINISHED" -> make_move f t g = (Ok false, g).
Proof.
  intros H. cbv [make_move bind reading ret get_game_state].
  destruct (game_state g =? "UNFINISHED")%string eqn:E; [|reflexivity].
  apply String.eqb_eq in E. contradiction.
Qed.

Lemma make_move_no_piece (f t : Z * Z) (g : ChessGame) (tp : option Piece) :
  get_piece (init_pos g) (PTuple (fst f) (snd f)) = Ok None ->
  get_piece (init_pos g) (PTuple (fst t) (snd t)) = Ok tp ->
  make_move f t g = (Ok false, g).
Proof.
  intros Ef Et. cbv [make_move bind reading ret get_game_state get_player_turn].
  destruct (negb _); [reflexivity|]. now rewrite Ef, Et.
Qed.

Lemma make_move_wrong_color (f t : Z * Z) (g : ChessGame) (p : Piece)
    (tp : option Piece) :
  get_piece (init_pos g) (PTuple (fst f) (snd f)) = Ok (Some p) ->
  get_piece (init_pos g) (PTuple (fst t) (snd t)) = Ok tp ->
  color p <> player_turn g ->
  make_move f t g = (Ok false, g).
Proof.
  intros Ef Et Hc. cbv [make_move bind reading ret get_game_state get_player_turn].
  destruct (negb _); [reflexivity|]. rewrite Ef, Et.
  destruct (color_eqb (color p) (player_turn g)) eqn:E; [|reflexivity].
  apply color_eqb_eq in E. contradiction.
Qed.

Lemma make_move_invalid (f t : Z * Z) (g : ChessGame) (p : Piece)
    (tp : option Piece) :
  get_piece (init_pos g) (PTuple (fst f) (snd f)) = Ok (Some p) ->
  get_piece (init_pos g) (PTuple (fst t) (snd t)) = Ok tp ->
  is_valid_move g f t = Ok false ->
  make_move f t g = (Ok false, g).
Proof.
  intros Ef Et Hv. cbv [make_move bind reading ret get_game_state get_player_turn].
  destruct (negb _); [reflexivity|]. rewrite Ef, Et.
  destruct (negb (color_eqb (color p) (player_turn g))); [reflexivity|].
  now rewrite Hv.
Qed.

(** What an accepted move went through, and the game it leaves. *)
Lemma make_move_accept_inv (f t : Z * Z) (g g' : ChessGame) :
  make_move f t g = (Ok true, g') ->
  exists p fs ts ms q,
    game_state g = "UNFINISHED" /\
    index_to_coord (fst f) (snd f) = Ok fs /\
    index_to_coord (fst t) (snd t) = Ok ts /\
    init_pos g !! Py.lower fs = Some p /\
    color p = player_turn g /\
    valid_moves (init_pos g) p = Ok ms /\
    In ts ms /\
    init_pos g !! fs = Some q /\
    g' = moved_game g p fs ts (is_king (init_pos g !! Py.lower ts)).
Proof.
  intros H.
  cbv [make_move bind reading ret get_game_state get_player_turn] in H.
  destruct (game_state g =? "UNFINISHED")%string eqn:Est; cbn [negb] in H;
    [|discriminate].
  apply String.eqb_eq in Est.
  unfold get_piece in H.
  destruct (index_to_coord (fst f) (snd f)) as [fs| |] eqn:Ef;
    cbn [rbind] in H; try discriminate.
  destruct (index_to_coord (fst t) (snd t)) as [ts| |] eqn:Et;
    cbn [rbind] in H; try discriminate.
  destruct (init_pos g !! Py.lower fs) as [p|] eqn:Ep; [|discriminate].
  destruct (color_eqb (color p) (player_turn g)) eqn:Ecol; cbn [negb] in H;
    [|discriminate].
  apply color_eqb_eq in Ecol.
  unfold is_valid_move, get_piece in H. rewrite Ef, Et in H.
  cbn [rbind] in H. rewrite Ep in H.
  destruct (valid_moves (init_pos g) p) as [ms| |] eqn:Ems;
    cbn [rbind] in H; try discriminate.
  destruct (existsb (String.eqb ts) ms) eqn:Ein; cbn [negb] in H;
    [|discriminate].
  apply existsb_exists in Ein as (x & Hin & Ex). apply String.eqb_eq in Ex.
  subst x.
  exists p, fs, ts, ms.
  unfold moved_game, moved_piece, won, other.
  cbv [pop_square store_square update_piece display_board reading toggle_turn
       set_game_state] in H.
  destruct (is_king (init_pos g !! Py.lower ts)) eqn:Ek.
  - destruct (color p) eqn:Ecp; cbn in H;
      (destruct (init_pos g !! fs) as [q|] eqn:Eq; [|discriminate]);
      exists q;
      (destruct (for_each _ _ _) as [[]| |]; try discriminate);
      cbn in H; injection H as <-;
      rewrite !alter_insert_eq; repeat split; auto.
  - cbn in H.
    destruct (init_pos g !! fs) as [q|] eqn:Eq; [|discriminate].
    exists q.
    destruct (for_each _ _ _) as [[]| |]; try discriminate.
    cbn [game_state player_turn init_pos] in H. rewrite Est in H.
    cbn in H. injection H as <-.
    rewrite !alter_insert_eq. rewrite Est. repeat split; auto.
Qed.

(** The board after any call of [make_move], whatever its outcome: it is
    the board before the call, or the origin entry has been removed and
    the moved piece stored under a destination that [valid_moves] gave. *)
Lemma make_move_board (f t : Z * Z) (g : ChessGame) :
  init_pos (snd (make_move f t g)) = init_pos g \/
  exists p fs ts ms q,
    index_to_coord (fst f) (snd f) = Ok fs /\
    index_to_coord (fst t) (snd t) = Ok ts /\
    init_pos g !! Py.lower fs = Some p /\
    valid_moves (init_pos g) p = Ok ms /\
    In ts ms /\
    init_pos g !! fs = Some q /\
    init_pos (snd (make_move f t g))
    = <[ts := moved_piece ts p]> (delete fs (init_pos g)).
Proof.
  cbv [make_move bind reading ret get_game_state get_player_turn].
  destruct (game_state g =? "UNFINISHED")%string eqn:Est; cbn [negb];
    [|now left].
  unfold get_piece.
  destruct (index_to_coord (fst f) (snd f)) as [fs| |] eqn:Ef;
    cbn [rbind]; try (now left).
  destruct (index_to_coord (fst t) (snd t)) as [ts| |] eqn:Et;
    cbn [rbind]; try (now left).
  destruct (init_pos g !! Py.lower fs) as [p|] eqn:Ep; [|now left].
  destruct (color_eqb (color p) (player_turn g)) eqn:Ecol; cbn [negb];
    [|now left].
  unfold is_valid_move, get_piece. rewrite Ef, Et.
  cbn [rbind]. rewrite Ep.
  destruct (valid_moves (init_pos g) p) as [ms| |] eqn:Ems;
    cbn [rbind]; try (now left).
  destruct (existsb (String.eqb ts) ms) eqn:Ein; cbn [negb]; [|now left].
  apply existsb_exists in Ein as (x & Hin & Ex). apply String.eqb_eq in Ex.
  subst x.
  cbv [pop_square store_square update_piece display_board reading toggle_turn
       set_game_state].
  destruct (is_king (init_pos g !! Py.lower ts));
    [destruct (color p); cbn|cbn];
    (destruct (init_pos g !! fs) as [q|] eqn:Eq; [|now left]);
    right; exists p, fs, ts, ms, q;
    (repeat split; try assumption);
    (destruct (for_each _ _ _) as [[]| |]; cbn;
     try (destruct (game_state g =? "UNFINISHED")%string; cbn);
     now rewrite !alter_insert_eq).
Qed.

(** On a well-formed board, the origin of a move that passed the checks is
    the key of the moving piece, and the destination is another square of
    the grid, empty or held by the other colour. *)
Lemma move_facts_wf (b : Board) (p q : Piece) (fs ts : string)
    (ms : list string) :
  wf_board b ->
  b !! Py.lower fs = Some p -> b !! fs = Some q ->
  valid_moves b p = Ok ms -> In ts ms ->
  Py.lower fs = fs /\ q = p /\ is_square fs = true /\ is_square ts = true /\
  ts <> fs /\ Py.lower ts = ts /\
  (b !! ts = None \/ exists x, b !! ts = Some x /\ color x <> color p).
Proof.
  intros Hwf Ep Eq Ems Hin.
  pose proof (wf_board_key b fs q Hwf Eq) as Hsq.
  pose proof (is_square_lower fs Hsq) as Hl.
  rewrite Hl in Ep. assert (q = p) as -> by congruence.
  destruct (wf_board_lookup b fs p Hwf Ep) as [Hp Hpos].
  destruct (valid_moves_ok b p Hp) as (c0 & r0 & ms' & Hg & Hname & E' & Hall).
  rewrite Ems in E'. injection E' as <-.
  rewrite List.Forall_forall in Hall.
  destruct (Hall _ Hin) as (col & row & Hm & Hne & Hcol & Hocc).
  assert (b !! ts = None \/ exists x, b !! ts = Some x /\ color x <> color p)
    as Hocc'.
  { destruct Hocc as [[_ Hn]|Hx]; auto. }
  assert (is_square ts = true) as Hts.
  { destruct Hocc as [[Hrow _]|(x & Ex & _)].
    - destruct (grid_square col row) as (s & Es & Hs & _);
        [apply in_grid_spec; lia|].
      rewrite Hm in Es. now injection Es as <-.
    - exact (wf_board_key b ts x Hwf Ex). }
  repeat split; auto.
  - intros ->. destruct Hocc' as [Hn|(x & Ex & Hc)]; congruence.
  - now apply is_square_lower.
Qed.

(** [make_move] keeps the invariant, whatever its outcome. *)
Lemma make_move_wf (f t : Z * Z) (g : ChessGame) :
  wf_board (init_pos g) -> wf_board (init_pos (snd (make_move f t g))).
Proof.
  intros Hwf.
  destruct (make_move_board f t g)
    as [->|(p & fs & ts & ms & q & _ & _ & Ep & Ems & Hin & Eq & ->)];
    [exact Hwf|].
  destruct (move_facts_wf _ _ _ _ _ _ Hwf Ep Eq Ems Hin)
    as (_ & -> & _ & Hts & _).
  now apply moved_board_wf.
Qed.

Lemma play_wf (moves : list ((Z * Z) * (Z * Z))) (g : ChessGame) :
  wf_board (init_pos g) -> wf_board (init_pos (snd (play moves g))).
Proof.
  revert g. induction moves as [|[f t] moves IH]; intros g Hwf; [exact Hwf|].
  cbn [play]. pose proof (make_move_wf f t g Hwf) as H1.
  destruct (make_move f t g) as [r g1]. cbn [snd] in H1.
  specialize (IH g1 H1). destruct (play moves g1) as [rs g2]. exact IH.
Qed.

(** An accepted move on a well-formed board. *)
Lemma make_move_accept_wf (f t : Z * Z) (g g' : ChessGame) :
  wf_board (init_pos g) ->
  make_move f t g = (Ok true, g') ->
  exists p fs ts,
    game_state g = "UNFINISHED" /\
    index_to_coord (fst f) (snd f) = Ok fs /\
    index_to_coord (fst t) (snd t) = Ok ts /\
    init_pos g !! fs = Some p /\
    color p = player_turn g /\
    is_square fs = true /\ is_square ts = true /\ ts <> fs /\
    (init_pos g !! ts = None \/
     exists x, init_pos g !! ts = Some x /\ color x <> color p) /\
    g' = moved_game g p fs ts (is_king (init_pos g !! ts)).
Proof.
  intros Hwf H.
  apply make_move_accept_inv in H
    as (p & fs & ts & ms & q & Est & Ef & Et & Ep & Ecol & Ems & Hin & Eq & ->).
  destruct (move_facts_wf _ _ _ _ _ _ Hwf Ep Eq Ems Hin)
    as (Hl & -> & Hfs & Hts & Hne & Hlt & Hocc).
  rewrite Hlt. exists p, fs, ts. repeat split; auto.
Qed.

(** On a well-formed board a move that passes the checks is carried out:
    [make_move] returns [True]. *)
Lemma make_move_accepts (g : ChessGame) (f t : Z * Z) (p : Piece)
    (fs ts : string) (ms : list string) :
  wf_board (init_pos g) ->
  game_state g = "UNFINISHED" ->
  index_to_coord (fst f) (snd f) = Ok fs ->
  index_to_coord (fst t) (snd t) = Ok ts ->
  init_pos g !! fs = Some p ->
  color p = player_turn g ->
  valid_moves (init_pos g) p = Ok ms ->
  In ts ms ->
  make_move f t g
  = (Ok true, moved_game g p fs ts (is_king (init_pos g !! ts))).
Proof.
  intros Hwf Est Ef Et Ep Ecol Ems Hin.
  pose proof (wf_board_key _ _ _ Hwf Ep) as Hfs.
  pose proof (is_square_lower _ Hfs) as Hlf.
  pose proof (valid_moves_squares _ _ _ _ Hwf Ep Ems ts Hin) as Hts.
  pose proof (is_square_lower _ Hts) as Hlt.
  assert (wf_board (<[ts := moved_piece ts p]> (delete fs (init_pos g))))
    as Hwf' by now apply moved_board_wf.
  cbv [make_move bind reading ret get_game_state get_player_turn].
  rewrite Est. cbn [String.eqb Ascii.eqb Bool.eqb negb].
  rewrite !(get_piece_tuple (init_pos g) _ _ _ Ef),
          !(get_piece_tuple (init_pos g) _ _ _ Et), Hlf, Hlt, Ep.
  apply color_eqb_eq in Ecol. rewrite Ecol. cbn [negb].
  unfold is_valid_move.
  rewrite (get_piece_tuple (init_pos g) _ _ _ Ef), Hlf, Ep. cbn [rbind].
  rewrite Ems. cbn [rbind]. rewrite Et. cbn [rbind].
  apply in_existsb in Hin. rewrite Hin. cbn [negb].
  rewrite Ef. cbv beta iota.
  cbv [pop_square store_square update_piece toggle_turn set_game_state
       display_board reading].
  unfold moved_game, won, other, moved_piece. unfold moved_piece in Hwf'.
  destruct (is_king (init_pos g !! ts)).
  - destruct (color p) eqn:Ecp;
      match goal with
      | |- context [existsb (String.eqb ?s) all_states] =>
          replace (existsb (String.eqb s) all_states) with true by reflexivity
      end;
      cbn [init_pos game_state player_turn]; rewrite Ep;
      cbn [init_pos game_state player_turn];
      rewrite !alter_insert_eq, (display_cells_wf _ Hwf');
      reflexivity.
  - cbn [init_pos game_state player_turn]. rewrite Ep.
    cbn [init_pos game_state player_turn].
    rewrite !alter_insert_eq, (display_cells_wf _ Hwf'), Est.
    reflexivity.
Qed.

Lemma make_move_flag (f t : Z * Z) (g : ChessGame) (k : string) (x : Piece) :
  init_pos (snd (make_move f t g)) !! k = Some x ->
  init_move x = Some true ->
  init_pos g !! k = Some x.
Proof.
  intros Ex Hfl.
  destruct (make_move_board f t g)
    as [E|(p & fs & ts & _ & _ & _ & _ & _ & _ & _ & _ & E)];
    rewrite E in Ex; [exact Ex|].
  destruct (decide (ts = k)) as [<-|Hne].
  - rewrite lookup_insert_eq in Ex. injection Ex as <-. discriminate.
  - rewrite lookup_insert_ne in Ex by exact Hne.
    now apply lookup_delete_Some in Ex as [_ Ex].
Qed.

Lemma play_flag (moves : list ((Z * Z) * (Z * Z))) (g : ChessGame)
    (k : string) (x : Piece) :
  init_pos (snd (play moves g)) !! k = Some x ->
  init_move x = Some true ->
  init_pos g !! k = Some x.
Proof.
  revert g. induction moves as [|[f t] moves IH]; intros g Ex Hfl; [exact Ex|].
  cbn [play] in Ex.
  pose proof (make_move_flag f t g k x) as Hstep.
  destruct (make_move f t g) as [r g1]. cbn [snd] in Hstep.
  specialize (IH g1).
  destruct (play moves g1) as [rs g2]. cbn [snd] in *. auto.
Qed.

(** Every game that the public methods can produce has a well-formed
    board. *)
Lemma reachable_wf (g : ChessGame) : reachable g -> wf_board (init_pos g).
Proof.
  induction 1 as [|g f t _ IH|g v _ IH|g _ IH].
  - exact new_game_wf.
  - now apply make_move_wf.
  - unfold set_game_state. destruct v as [s| | |]; try exact IH.
    destruct (existsb (String.eqb s) all_states); exact IH.
  - exact IH.
Qed.

(** ** The loop of [main] *)


Lemma main_iteration_finished (toks : list string) (g : ChessGame) :
  game_state g <> "UNFINISHED" -> snd (main_iteration toks g) = g.
Proof.
  intros Hne. cbv [main_iteration bind reading ret].
  destruct (nth_error toks 0); [|reflexivity].
  destruct (nth_error toks 1); [|reflexivity].
  destruct (parse_position s s0) as [[[mf|] [mt|]]| |]; try reflexivity.
  destruct (is_valid_move g mf mt) as [[|]| |]; try reflexivity.
  now rewrite (make_move_finished mf mt g Hne).
Qed.

(** * The claims *)

(** ** C1: the sweeps of the sliding pieces *)

(** C1, on the starting board.  The white rook on a1 has its own pawn on
    a2, the first occupied square up the a file, and [valid_moves] still
    returns the six squares a3..a8 beyond it; likewise the white queen on
    d1 is given d8 beyond the pawns on d2 and d7, so that the first call
    [make_move((3, 7), (3, 0))] of a game is accepted and captures the
    black king. *)
Theorem sweep_passes_occupied_squares :
  board_start !! "a1" = Some (new_piece Rook WHITE "a1") /\
  board_start !! "a2" = Some (new_piece Pawn WHITE "a2") /\
  valid_moves board_start (new_piece Rook WHITE "a1")
  = Ok ["a3"; "a4"; "a5"; "a6"; "a7"; "a8"] /\
  board_start !! "d2" = Some (new_piece Pawn WHITE "d2") /\
  board_start !! "d7" = Some (new_piece Pawn BLACK "d7") /\
  valid_moves board_start (new_piece Queen WHITE "d1")
  = Ok ["d3"; "d4"; "d5"; "d6"; "d7"; "d8"; "b3"; "a4"; "f3"; "g4"; "h5"] /\
  fst (make_move (3, 7) (3, 0) new_game) = Ok true /\
  game_state (snd (make_move (3, 7) (3, 0) new_game)) = "WHITE_WON".
Proof. repeat split; vm_compute; reflexivity. Qed.

(** ** C2: a decided game is frozen *)

(** C2.  Once the outcome is WHITE_WON or BLACK_WON, every call of
    [make_move], and so every sequence of calls, returns [False] and
    leaves the whole game (board, positions, turn, outcome) as it was;
    an iteration of the loop of [main] leaves it as it was, too.
    An accepted move whose destination held a king sets the outcome to
    the WON state of the colour that moved, and the turn is not toggled:
    it is still the turn of the colour that moved. *)
Theorem decided_game_is_frozen :
  (forall g moves,
     game_state g = "WHITE_WON" \/ game_state g = "BLACK_WON" ->
     play moves g = (map (fun _ => Ok false) moves, g)) /\
  (forall g curr_move,
     game_state g = "WHITE_WON" \/ game_state g = "BLACK_WON" ->
     snd (main_iteration curr_move g) = g) /\
  (forall g f t g' p tp,
     make_move f t g = (Ok true, g') ->
     get_piece (init_pos g) (PTuple (fst f) (snd f)) = Ok (Some p) ->
     get_piece (init_pos g) (PTuple (fst t) (snd t)) = Ok (Some tp) ->
     kind tp = King ->
     game_state g' = won (color p) /\
     player_turn g' = player_turn g /\ player_turn g' = color p).
Proof.
  split; [|split].
  - intros g moves Hg.
    assert (game_state g <> "UNFINISHED") as Hne
        by (destruct Hg as [-> | ->]; discriminate).
    induction moves as [|[f t] moves IH]; [reflexivity|].
    cbn [play map]. rewrite (make_move_finished f t g Hne). now rewrite IH.
  - intros g curr_move Hg. apply main_iteration_finished.
    destruct Hg as [-> | ->]; discriminate.
  - intros g f t g' p tp H Ef Et Hk.
    apply make_move_accept_inv in H
      as (p' & fs & ts & ms & q & _ & Efs & Ets & Ep & Ecol & _ & _ & _ & ->).
    rewrite (get_piece_tuple _ _ _ _ Efs) in Ef.
    rewrite (get_piece_tuple _ _ _ _ Ets) in Et.
    injection Ef as Ef. injection Et as Et.
    rewrite Ep in Ef. injection Ef as ->.
    rewrite Et. unfold moved_game, is_king. rewrite Hk. cbn.
    repeat split; congruence.
Qed.

Lemma decided_game_is_frozen_witness :
  play [((4, 1), (4, 3)); ((0, 6), (0, 5))]
       (snd (make_move (3, 7) (3, 0) new_game))
  = ([Ok false; Ok false], snd (make_move (3, 7) (3, 0) new_game)) /\
  game_state (snd (make_move (3, 7) (3, 0) new_game)) = won WHITE /\
  player_turn (snd (make_move (3, 7) (3, 0) new_game)) = WHITE.
Proof.
  split.
  - apply (proj1 decided_game_is_frozen
             (snd (make_move (3, 7) (3, 0) new_game))
             [((4, 1), (4, 3)); ((0, 6), (0, 5))]).
    left. vm_compute. reflexivity.
  - assert (make_move (3, 7) (3, 0) new_game
            = (Ok true, snd (make_move (3, 7) (3, 0) new_game))) as H
        by (vm_compute; reflexivity).
    destruct (proj2 (proj2 decided_game_is_frozen) new_game (3, 7) (3, 0) _
                (new_piece Queen WHITE "d1") (new_piece King BLACK "d8") H)
      as (H1 & H2 & H3);
      [vm_compute; reflexivity|vm_compute; reflexivity|reflexivity|].
    split; [exact H1|exact H3].
Defined.

(** ** C3: what an accepted move changes *)

(** C3.  On a well-formed board, when [make_move] returns [True]: the
    origin square held a piece and is now empty; the destination square
    holds that piece, of the same class and colour, with its position set
    to the destination (and its first-move flag cleared); every entry of
    the board other than the origin and the destination is unchanged; and
    the turn has been toggled exactly when the outcome is still
    UNFINISHED after the move. *)
Theorem accepted_move_effect (g g' : ChessGame) (f t : Z * Z) :
  wf_board (init_pos g) ->
  make_move f t g = (Ok true, g') ->
  exists p p' fs ts,
    index_to_coord (fst f) (snd f) = Ok fs /\
    index_to_coord (fst t) (snd t) = Ok ts /\
    init_pos g !! fs = Some p /\
    init_pos g' !! fs = None /\
    init_pos g' !! ts = Some p' /\
    kind p' = kind p /\ color p' = color p /\
    position p' = ts /\ init_move p' = Some false /\
    (forall k, k <> fs -> k <> ts -> init_pos g' !! k = init_pos g !! k) /\
    (game_state g' = "UNFINISHED" -> player_turn g' = other (player_turn g)) /\
    (game_state g' <> "UNFINISHED" -> player_turn g' = player_turn g).
Proof.
  intros Hwf H.
  apply (make_move_accept_wf f t g g' Hwf) in H
    as (p & fs & ts & Est & Ef & Et & Ep & Ecol & Hfs & Hts & Hne & Hocc & ->).
  exists p, (moved_piece ts p), fs, ts.
  unfold moved_game. cbn [init_pos game_state player_turn].
  repeat split; auto.
  - rewrite lookup_insert_ne by exact Hne. apply lookup_delete_eq.
  - apply lookup_insert_eq.
  - intros k Hk1 Hk2. rewrite lookup_insert_ne by congruence.
    apply lookup_delete_ne. congruence.
  - destruct (is_king (init_pos g !! ts)); [|reflexivity].
    destruct (color p); discriminate.
  - destruct (is_king (init_pos g !! ts)); [reflexivity|]. contradiction.
Qed.

Lemma accepted_move_effect_witness :
  wf_board (init_pos new_game) /\
  exists g',
    make_move (4, 6) (4, 4) new_game = (Ok true, g') /\
    init_pos g' !! "e2" = None /\
    (exists p', init_pos g' !! "e4" = Some p' /\ position p' = "e4") /\
    player_turn g' = BLACK.
Proof.
  assert (wf_board (init_pos new_game)) as Hwf by (vm_compute; reflexivity).
  split; [exact Hwf|].
  exists (snd (make_move (4, 6) (4, 4) new_game)).
  assert (make_move (4, 6) (4, 4) new_game
          = (Ok true, snd (make_move (4, 6) (4, 4) new_game))) as H
      by (vm_compute; reflexivity).
  split; [exact H|].
  destruct (accepted_move_effect new_game _ (4, 6) (4, 4) Hwf H)
    as (p & p' & fs & ts & Ef & Et & _ & Hfrom & Hto & _ & _ & Hpos & _ & _ &
        Htog & _).
  cbn in Ef, Et. injection Ef as <-. injection Et as <-.
  split; [exact Hfrom|]. split; [exists p'; auto|].
  apply Htog. vm_compute. reflexivity.
Defined.

(** ** C4: the two coordinate conversions are inverse on the 64 squares *)

(** C4.  There are 64 square notations (a file letter a-h followed by a
    rank digit 1-8, all different).  For each of them, [coord_to_index]
    followed by [index_to_coord] gives the notation back; for every
    [(col, row)] with [0 <= col < 8] and [0 <= row < 8], [index_to_coord]
    followed by [coord_to_index] gives [(col, row)] back. *)
Theorem coord_round_trip :
  (length all_squares = 64%nat /\ NoDup all_squares) /\
  (forall s, In s all_squares ->
     (idx <- coord_to_index s ;; index_to_coord (fst idx) (snd idx)) = Ok s) /\
  (forall col row, 0 <= col < 8 -> 0 <= row < 8 ->
     (s <- index_to_coord col row ;; coord_to_index s) = Ok (col, row)).
Proof.
  split; [|split].
  - split; [reflexivity|].
    apply (bool_decide_unpack _). vm_compute. reflexivity.
  - intros s Hin.
    assert (is_square s = true) as Hs.
    { unfold is_square. apply existsb_exists. exists s.
      split; [exact Hin|apply String.eqb_refl]. }
    destruct (is_square_coord s Hs) as (col & row & _ & Hname & ->).
    exact Hname.
  - intros col row Hc Hr.
    destruct (grid_square col row) as (s & -> & _ & Hs);
      [apply in_grid_spec; lia|exact Hs].
Qed.

Lemma coord_round_trip_witness :
  In "e2" all_squares /\
  (idx <- coord_to_index "e2" ;; index_to_coord (fst idx) (snd idx)) = Ok "e2" /\
  (0 <= 4 < 8 /\ 0 <= 6 < 8) /\
  (s <- index_to_coord 4 6 ;; coord_to_index s) = Ok (4, 6).
Proof.
  assert (In "e2" all_squares) as Hin by (vm_compute; tauto).
  split; [exact Hin|].
  split; [exact (proj1 (proj2 coord_round_trip) "e2" Hin)|].
  split; [lia|].
  apply (proj2 (proj2 coord_round_trip) 4 6); lia.
Defined.

(** ** C5: the starting position *)

(** C5, at the constructor.  A new game has 32 pieces, the outcome
    UNFINISHED and WHITE to move, but its board is not the starting
    position of chess: the black king stands on d8 and the black queen on
    e8, where chess has the queen on d8 and the king on e8.  The other 62
    squares agree with the starting position of chess. *)
Theorem board_start_black_king_on_d8 :
  size board_start = 32%nat /\
  game_state new_game = "UNFINISHED" /\ player_turn new_game = WHITE /\
  init_pos new_game !! "d8" = Some (new_piece King BLACK "d8") /\
  init_pos new_game !! "e8" = Some (new_piece Queen BLACK "e8") /\
  canonical_start !! "d8" = Some (new_piece Queen BLACK "d8") /\
  canonical_start !! "e8" = Some (new_piece King BLACK "e8") /\
  init_pos new_game
  = <["d8" := new_piece King BLACK "d8"]>
      (<["e8" := new_piece Queen BLACK "e8"]> canonical_start).
Proof. repeat split; vm_compute; reflexivity. Qed.

(** ** C6: tokens outside the ranges *)




(** ** C7: the double step of a pawn *)

(** C7.  For a pawn on the grid whose position reads [(c0, r0)]: the
    double forward step is in its list of legal destinations exactly when
    its first-move flag is true, the intermediate and the destination
    square are on the grid, and the destination square is empty; nothing
    is asked of the intermediate square, and putting any piece on it
    leaves the legality of the double step as it was.  An accepted move
    leaves the moved piece with its flag false; no call of [make_move]
    sets a flag to true (a piece with a true flag after any sequence of
    calls stood unchanged on its square before them); and a pawn with a
    false flag has no double step on any board. *)
Theorem pawn_double_step :
  (forall b p c0 r0,
     kind p = Pawn -> piece_ok p = true ->
     coord_to_index (position p) = Ok (c0, r0) ->
     (double_legal b p <->
      init_move p = Some true /\
      in_grid c0 (r0 - pawn_direction (color p)) = true /\
      in_grid c0 (r0 - 2 * pawn_direction (color p)) = true /\
      exists dbl, ahead p 2 = Ok dbl /\ b !! dbl = None)) /\
  (forall b p mid q,
     kind p = Pawn -> piece_ok p = true -> ahead p 1 = Ok mid ->
     (double_legal (<[mid := q]> b) p <-> double_legal b p)) /\
  (forall g f t g' ts,
     make_move f t g = (Ok true, g') ->
     index_to_coord (fst t) (snd t) = Ok ts ->
     exists p', init_pos g' !! ts = Some p' /\ init_move p' = Some false) /\
  (forall g moves k x,
     init_pos (snd (play moves g)) !! k = Some x ->
     init_move x = Some true ->
     init_pos g !! k = Some x) /\
  (forall b p,
     kind p = Pawn -> piece_ok p = true -> init_move p = Some false ->
     ~ double_legal b p).
Proof.
  split; [exact pawn_double_iff|].
  split; [|split; [|split; [intros g moves; exact (play_flag moves g)|]]].
  - intros b p mid q Hk Hp Hmid.
    pose proof Hp as Hp'. apply piece_ok_inv in Hp' as [Hsq _].
    destruct (is_square_coord _ Hsq) as (c0 & r0 & Hg & _ & Hc).
    rewrite (pawn_double_iff _ p c0 r0 Hk Hp Hc).
    rewrite (pawn_double_iff b p c0 r0 Hk Hp Hc).
    assert (forall dbl, ahead p 2 = Ok dbl ->
              (<[mid := q]> b) !! dbl = b !! dbl) as Hl.
    { intros dbl Hd. apply lookup_insert_ne. intros ->.
      unfold ahead in Hmid, Hd. rewrite Hc in Hmid, Hd. cbn in Hmid, Hd.
      destruct (index_to_coord_inj _ _ _ _ _ Hmid Hd) as [_ H].
      destruct (color p); cbn in H; lia. }
    split; intros (H1 & H2 & H3 & dbl & Hd & Hn);
      repeat split; auto; exists dbl; split; auto;
      rewrite (Hl dbl Hd) in *; exact Hn.
  - intros g f t g' ts H Et.
    apply make_move_accept_inv in H
      as (p & fs & ts' & ms & q & _ & _ & Et' & _ & _ & _ & _ & _ & ->).
    rewrite Et in Et'. injection Et' as <-.
    exists (moved_piece ts p). split; [|reflexivity].
    unfold moved_game. cbn [init_pos]. apply lookup_insert_eq.
  - intros b p Hk Hp Hfl Hd.
    pose proof Hp as Hp'. apply piece_ok_inv in Hp' as [Hsq _].
    destruct (is_square_coord _ Hsq) as (c0 & r0 & Hg & _ & Hc).
    apply (pawn_double_iff b p c0 r0 Hk Hp Hc) in Hd as (Ht & _).
    congruence.
Qed.

Lemma pawn_double_step_witness :
  double_legal board_start (new_piece Pawn WHITE "e2") /\
  double_legal (<["e3" := new_piece Knight BLACK "e3"]> board_start)
               (new_piece Pawn WHITE "e2") /\
  (exists p', init_pos (snd (make_move (4, 6) (4, 5) new_game)) !! "e3" = Some p' /\
              init_move p' = Some false) /\
  init_pos new_game !! "d2" = Some (new_piece Pawn WHITE "d2") /\
  ~ double_legal (init_pos (snd (make_move (4, 6) (4, 5) new_game)))
      (moved_piece "e3" (new_piece Pawn WHITE "e2")).
Proof.
  destruct pawn_double_step as (H1 & H2 & H3 & H4 & H5).
  assert (double_legal board_start (new_piece Pawn WHITE "e2")) as Hd.
  { apply (H1 board_start (new_piece Pawn WHITE "e2") 4 6);
      [reflexivity|vm_compute; reflexivity|reflexivity|].
    split; [reflexivity|]. split; [reflexivity|]. split; [reflexivity|].
    exists "e4". split; vm_compute; reflexivity. }
  split; [exact Hd|].
  split.
  { apply (H2 board_start (new_piece Pawn WHITE "e2") "e3"
              (new_piece Knight BLACK "e3"));
      [reflexivity|vm_compute; reflexivity|reflexivity|exact Hd]. }
  split.
  { apply (H3 new_game (4, 6) (4, 5) _ "e3"); vm_compute; reflexivity. }
  split.
  { apply (H4 new_game [((4, 6), (4, 5))] "d2" (new_piece Pawn WHITE "d2"));
      vm_compute; reflexivity. }
  apply H5; [reflexivity|vm_compute; reflexivity|reflexivity].
Defined.

(** ** C8: the four reasons for which [make_move] refuses a move *)

(** C8.  For an origin and a destination that have a notation,
    [make_move] returns [False] and leaves the game as it was when the
    outcome is not UNFINISHED, when no piece stands on the origin, when the
    piece on the origin is not of the colour to move, and when the
    destination is not in the list that [valid_moves] returns for the piece
    on the origin. *)
Theorem make_move_rejects (g : ChessGame) (f t : Z * Z) :
  (game_state g <> "UNFINISHED" -> make_move f t g = (Ok false, g)) /\
  (forall tp,
     get_piece (init_pos g) (PTuple (fst f) (snd f)) = Ok None ->
     get_piece (init_pos g) (PTuple (fst t) (snd t)) = Ok tp ->
     make_move f t g = (Ok false, g)) /\
  (forall p tp,
     get_piece (init_pos g) (PTuple (fst f) (snd f)) = Ok (Some p) ->
     get_piece (init_pos g) (PTuple (fst t) (snd t)) = Ok tp ->
     color p <> player_turn g ->
     make_move f t g = (Ok false, g)) /\
  (forall p ts ms,
     get_piece (init_pos g) (PTuple (fst f) (snd f)) = Ok (Some p) ->
     index_to_coord (fst t) (snd t) = Ok ts ->
     valid_moves (init_pos g) p = Ok ms ->
     ~ In ts ms ->
     make_move f t g = (Ok false, g)).
Proof.
  split; [apply make_move_finished|].
  split; [intros tp; apply make_move_no_piece|].
  split; [intros p tp; apply make_move_wrong_color|].
  intros p ts ms Ef Et Ems Hn.
  eapply make_move_invalid; [exact Ef|exact (get_piece_tuple _ _ _ _ Et)|].
  eapply is_valid_move_not_in; eassumption.
Qed.

Lemma make_move_rejects_witness :
  make_move (4, 6) (4, 4) (snd (make_move (3, 7) (3, 0) new_game))
  = (Ok false, snd (make_move (3, 7) (3, 0) new_game)) /\
  make_move (4, 4) (4, 3) new_game = (Ok false, new_game) /\
  make_move (4, 1) (4, 2) new_game = (Ok false, new_game) /\
  make_move (4, 6) (4, 3) new_game = (Ok false, new_game).
Proof.
  split; [|split; [|split]].
  - apply (proj1 (make_move_rejects _ (4, 6) (4, 4))).
    vm_compute. discriminate.
  - apply (proj1 (proj2 (make_move_rejects new_game (4, 4) (4, 3))) None);
      vm_compute; reflexivity.
  - apply (proj1 (proj2 (proj2 (make_move_rejects new_game (4, 1) (4, 2))))
             (new_piece Pawn BLACK "e7") None);
      [vm_compute; reflexivity|vm_compute; reflexivity|discriminate].
  - apply (proj2 (proj2 (proj2 (make_move_rejects new_game (4, 6) (4, 3))))
             (new_piece Pawn WHITE "e2") "e5" ["e3"; "e4"]);
      [vm_compute; reflexivity|vm_compute; reflexivity|vm_compute; reflexivity|].
    intros [H|[H|[]]]; discriminate.
Defined.

(** ** C9: [set_game_state] *)

(** C9.  Called with one of the three recognised states, [set_game_state]
    stores it as the outcome and returns; called with any other value (a
    string that is not one of the three, or a value that is not a string)
    it raises [InvalidStateError], an exception class of its own, and
    leaves the game, hence the outcome, as it was. *)
Theorem set_game_state_spec (g : ChessGame) (v : PyValue) :
  (recognised v ->
   exists s, v = PyStr s /\
     set_game_state v g
     = (Ok tt, {| game_state := s; player_turn := player_turn g;
                  init_pos := init_pos g |})) /\
  (~ recognised v -> set_game_state v g = (Raise InvalidStateError, g)).
Proof.
  split.
  - intros (s & -> & Hin). exists s. split; [reflexivity|].
    unfold set_game_state. apply in_existsb in Hin. now rewrite Hin.
  - intros Hn. destruct v as [s| | |]; try reflexivity.
    unfold set_game_state.
    destruct (existsb (String.eqb s) all_states) eqn:E; [|reflexivity].
    exfalso. apply Hn. exists s. split; [reflexivity|]. now apply in_existsb.
Qed.

Lemma set_game_state_spec_witness :
  (recognised (PyStr "BLACK_WON") /\
   game_state (snd (set_game_state (PyStr "BLACK_WON") new_game)) = "BLACK_WON") /\
  (~ recognised (PyStr "DRAW") /\
   set_game_state (PyStr "DRAW") new_game = (Raise InvalidStateError, new_game)) /\
  (~ recognised PyNone /\
   set_game_state PyNone new_game = (Raise InvalidStateError, new_game)).
Proof.
  assert (recognised (PyStr "BLACK_WON")) as Hin.
  { exists "BLACK_WON". split; [reflexivity|]. vm_compute. tauto. }
  assert (~ recognised (PyStr "DRAW")) as Hout.
  { intros (s & [= <-] & H). vm_compute in H.
    destruct H as [H|[H|[H|[]]]]; discriminate. }
  assert (~ recognised PyNone) as Hnone.
  { intros (s & H & _). discriminate. }
  split; [|split]; (split; [assumption|]).
  - destruct (proj1 (set_game_state_spec new_game _) Hin) as (s & [= <-] & ->).
    reflexivity.
  - exact (proj2 (set_game_state_spec new_game _) Hout).
  - exact (proj2 (set_game_state_spec new_game _) Hnone).
Defined.

(** ** C10: a piece is never offered its own square *)

(** C10.  For a piece of any class standing on a square of the grid, and
    any board, [valid_moves] returns a list and the square of the piece is
    not in it.  Consequently, on a well-formed board, [make_move] with the
    same origin and destination returns [False] and changes nothing. *)
Theorem own_square_never_legal :
  (forall b p,
     piece_ok p = true ->
     exists ms, valid_moves b p = Ok ms /\ ~ In (position p) ms) /\
  (forall g f fs,
     wf_board (init_pos g) ->
     index_to_coord (fst f) (snd f) = Ok fs ->
     make_move f f g = (Ok false, g)).
Proof.
  split.
  - intros b p Hp. destruct (valid_moves_total b p Hp) as (ms & E).
    exists ms. split; [exact E|]. exact (valid_moves_not_own b p ms Hp E).
  - intros g f fs Hwf Ef.
    destruct (init_pos g !! Py.lower fs) as [p|] eqn:Ep.
    + eapply make_move_invalid.
      * rewrite (get_piece_tuple (init_pos g) _ _ _ Ef). now rewrite Ep.
      * exact (get_piece_tuple (init_pos g) _ _ _ Ef).
      * eapply is_valid_move_same_square; eassumption.
    + eapply make_move_no_piece.
      * rewrite (get_piece_tuple (init_pos g) _ _ _ Ef). now rewrite Ep.
      * exact (get_piece_tuple (init_pos g) _ _ _ Ef).
Qed.

Lemma own_square_never_legal_witness :
  (piece_ok (new_piece Knight WHITE "b1") = true /\
   exists ms, valid_moves board_start (new_piece Knight WHITE "b1") = Ok ms /\
              ~ In "b1" ms) /\
  (wf_board (init_pos new_game) /\
   make_move (4, 6) (4, 6) new_game = (Ok false, new_game)).
Proof.
  split.
  - split; [vm_compute; reflexivity|].
    apply (proj1 own_square_never_legal board_start
             (new_piece Knight WHITE "b1")).
    vm_compute. reflexivity.
  - assert (wf_board (init_pos new_game)) as Hwf by (vm_compute; reflexivity).
    split; [exact Hwf|].
    apply (proj2 own_square_never_legal new_game (4, 6) "e2" Hwf).
    vm_compute. reflexivity.
Defined.

(** * Further properties *)

(** ** Collecting loops *)

Lemma for_each_collect {B : Type} (C : B -> string -> Prop)
    (body : list string -> B -> result (list string)) (l : list B) :
  (forall d a a', In d l -> body a d = Ok a' ->
                  forall x, In x a' <-> In x a \/ C d x) ->
  forall a a', for_each l body a = Ok a' ->
               forall x, In x a' <-> In x a \/ exists d, In d l /\ C d x.
Proof.
  induction l as [|d l IH]; intros Hbody a a' E x.
  - injection E as <-. split; [auto|]. intros [H|(d & [] & _)]. exact H.
  - cbn [for_each] in E.
    destruct (body a d) as [a1| |] eqn:E1; cbn [rbind] in E; try discriminate.
    rewrite (IH (fun d' a0 a0' Hd => Hbody d' a0 a0' (or_intror Hd)) a1 a' E x).
    rewrite (Hbody d a a1 (or_introl eq_refl) E1 x).
    split.
    + intros [[H|H]|(d' & Hd' & H)]; auto.
      * right. exists d. split; [now left|exact H].
      * right. exists d'. split; [now right|exact H].
    + intros [H|(d' & [<-|Hd'] & H)]; auto.
      right. exists d'. auto.
Qed.

Lemma visit_collect (b : Board) (c : Color) (pos : string)
    (vm vm' : list string) :
  Py.lower pos = pos ->
  visit b c pos vm = Ok vm' ->
  forall x, In x vm' <-> In x vm \/ (x = pos /\ occupiable b c pos).
Proof.
  intros Hl E x. unfold occupiable.
  destruct (visit_spec b c pos vm Hl) as [[E' Hocc]|[E' (q & Eq & Hc)]];
    rewrite E in E'; injection E' as ->.
  - rewrite in_app_iff. cbn [In]. split.
    + intros [H|[<-|[]]]; auto.
    + intros [H|[-> _]]; auto.
  - split; [auto|]. intros [H|[_ [Hn|(q' & Eq' & Hc')]]]; [exact H| |];
      congruence.
Qed.

Lemma step_to_collect (b : Board) (c : Color) (col row : Z)
    (vm vm' : list string) (offset : Z * Z) :
  step_to b c col row vm offset = Ok vm' ->
  forall x,
    In x vm' <->
    In x vm \/
    (in_grid (col + fst offset) (row + snd offset) = true /\
     index_to_coord (col + fst offset) (row + snd offset) = Ok x /\
     occupiable b c x).
Proof.
  intros E x. unfold step_to in E.
  change ((0 <=? col + fst offset) && (col + fst offset <? 8) &&
          (0 <=? row + snd offset) && (row + snd offset <? 8))
    with (in_grid (col + fst offset) (row + snd offset)) in E.
  destruct (in_grid (col + fst offset) (row + snd offset)) eqn:Hg.
  2:{ injection E as <-. split; [auto|]. intros [H|(H & _)]; [exact H|discriminate]. }
  destruct (grid_square _ _ Hg) as (pos & Epos & Hsq & _).
  rewrite Epos in E. cbn [rbind] in E.
  pose proof (is_square_lower pos Hsq) as Hl.
  assert (visit b c pos vm = Ok vm') as Ev.
  { unfold visit. destruct (is_square_open b pos); cbn [rbind] in E; [exact E|].
    destruct (is_opponent b (PStr pos) c) as [[|]| |]; cbn [rbind] in *;
      congruence. }
  rewrite (visit_collect b c pos vm vm' Hl Ev x), Epos.
  split.
  - intros [H|[-> Hocc]]; auto.
  - intros [H|(_ & [= <-] & Hocc)]; auto.
Qed.

(** A sweep collects what it may move onto, square after square, up to
    the first step that leaves the grid. *)
Lemma sweep_collect (b : Board) (c : Color) (dc dr : Z) :
  forall (fuel : nat) (tc tr : Z) (vm vm' : list string),
    sweep fuel b c tc tr (dc, dr) vm = Ok vm' ->
    forall x,
      In x vm' <->
      In x vm \/
      exists k,
        1 <= k /\
        (forall j, 1 <= j <= k ->
                   in_grid (tc + j * dc) (tr + j * dr) = true) /\
        index_to_coord (tc + k * dc) (tr + k * dr) = Ok x /\
        occupiable b c x.
Proof.
  induction fuel as [|fuel IH]; intros tc tr vm vm' E x; [discriminate|].
  cbn [sweep fst snd] in E. rewrite sweep_bounds in E.
  destruct (in_grid (tc + dc) (tr + dr)) eqn:Hg; cbn [negb] in E.
  2:{ injection E as <-. split; [auto|]. intros [H|(k & Hk & Hall & _)]; [exact H|].
      specialize (Hall 1 ltac:(lia)).
      replace (tc + 1 * dc) with (tc + dc) in Hall by lia.
      replace (tr + 1 * dr) with (tr + dr) in Hall by lia. congruence. }
  destruct (grid_square _ _ Hg) as (pos & Epos & Hsq & _).
  rewrite Epos in E. cbn [rbind] in E.
  destruct (visit b c pos vm) as [vm1| |] eqn:Ev; cbn [rbind] in E;
    try discriminate.
  rewrite (IH _ _ _ _ E x).
  rewrite (visit_collect b c pos vm vm1 (is_square_lower pos Hsq) Ev x).
  split.
  - intros [[H|[-> Hocc]]|(k & Hk & Hall & Ek & Hocc)]; [now left| |].
    + right. exists 1. split; [lia|]. split; [|split; [|exact Hocc]].
      * intros j Hj. replace j with 1 by lia.
        replace (tc + 1 * dc) with (tc + dc) by lia.
        replace (tr + 1 * dr) with (tr + dr) by lia. exact Hg.
      * replace (tc + 1 * dc) with (tc + dc) by lia.
        replace (tr + 1 * dr) with (tr + dr) by lia. exact Epos.
    + right. exists (k + 1). split; [lia|]. split; [|split; [|exact Hocc]].
      * intros j Hj. destruct (Z.eq_dec j 1) as [->|Hne].
        -- replace (tc + 1 * dc) with (tc + dc) by lia.
           replace (tr + 1 * dr) with (tr + dr) by lia. exact Hg.
        -- specialize (Hall (j - 1) ltac:(lia)).
           replace (tc + dc + (j - 1) * dc) with (tc + j * dc) in Hall by lia.
           replace (tr + dr + (j - 1) * dr) with (tr + j * dr) in Hall by lia.
           exact Hall.
      * replace (tc + (k + 1) * dc) with (tc + dc + k * dc) by lia.
        replace (tr + (k + 1) * dr) with (tr + dr + k * dr) by lia. exact Ek.
  - intros [H|(k & Hk & Hall & Ek & Hocc)]; [now left; left|].
    destruct (Z.eq_dec k 1) as [->|Hne].
    + left. right.
      replace (tc + 1 * dc) with (tc + dc) in Ek by lia.
      replace (tr + 1 * dr) with (tr + dr) in Ek by lia.
      rewrite Epos in Ek. injection Ek as <-. auto.
    + right. exists (k - 1). split; [lia|]. split; [|split; [|exact Hocc]].
      * intros j Hj. specialize (Hall (j + 1) ltac:(lia)).
        replace (tc + (j + 1) * dc) with (tc + dc + j * dc) in Hall by lia.
        replace (tr + (j + 1) * dr) with (tr + dr + j * dr) in Hall by lia.
        exact Hall.
      * replace (tc + dc + (k - 1) * dc) with (tc + k * dc) by lia.
        replace (tr + dr + (k - 1) * dr) with (tr + k * dr) by lia. exact Ek.
Qed.

(** From a square of the grid, the squares of a line between the start
    and a square of the grid are on the grid. *)
Lemma line_convex (col row dc dr j k : Z) :
  unit_dir dc dr -> in_grid col row = true ->
  in_grid (col + k * dc) (row + k * dr) = true ->
  1 <= j <= k ->
  in_grid (col + j * dc) (row + j * dr) = true.
Proof.
  intros ([-> | [-> | ->]] & [-> | [-> | ->]] & _) Hs Hk Hj;
    apply in_grid_spec in Hs, Hk; apply in_grid_spec; lia.
Qed.

Lemma sweep_on_line (b : Board) (c : Color) (col row dc dr : Z) (fuel : nat)
    (vm vm' : list string) :
  unit_dir dc dr -> in_grid col row = true ->
  sweep fuel b c col row (dc, dr) vm = Ok vm' ->
  forall x, In x vm' <-> In x vm \/ on_line b c col row [(dc, dr)] x.
Proof.
  intros Hd Hs E x. rewrite (sweep_collect b c dc dr fuel col row vm vm' E x).
  unfold on_line. split.
  - intros [H|(k & Hk & Hall & Ek & Hocc)]; [now left|].
    right. exists (dc, dr), k. cbn [fst snd In]. repeat split; auto.
    apply Hall. lia.
  - intros [H|(d & k & [<-|[]] & Hk & Hg & Ek & Hocc)]; [now left|].
    cbn [fst snd] in *. right. exists k. repeat split; auto.
    intros j Hj. exact (line_convex col row dc dr j k Hd Hs Hg Hj).
Qed.

(** The loop of the rook over [range(1, 8)]. *)
Lemma rook_ray_collect (b : Board) (c : Color) (col row dc dr : Z) :
  forall (moves : list Z) (vm vm' : list string),
    rook_ray b c col row (dc, dr) moves vm = Ok vm' ->
    forall x,
      In x vm' <->
      In x vm \/
      exists pre k post,
        moves = pre ++ k :: post /\
        Forall (fun j => in_grid (col + dc * j) (row + dr * j) = true)
               (pre ++ [k]) /\
        index_to_coord (col + dc * k) (row + dr * k) = Ok x /\
        occupiable b c x.
Proof.
  induction moves as [|m moves IH]; intros vm vm' E x.
  - injection E as <-. split; [auto|].
    intros [H|(pre & k & post & Hm & _)]; [exact H|].
    destruct pre; discriminate.
  - cbn [rook_ray fst snd] in E.
    change ((0 <=? col + dc * m) && (col + dc * m <? 8) &&
            (0 <=? row + dr * m) && (row + dr * m <? 8))
      with (in_grid (col + dc * m) (row + dr * m)) in E.
    destruct (in_grid (col + dc * m) (row + dr * m)) eqn:Hg; cbn [negb] in E.
    2:{ injection E as <-. split; [auto|].
        intros [H|(pre & k & post & Hm & Hall & _)]; [exact H|].
        destruct pre as [|p pre]; cbn in Hm, Hall; injection Hm as <- _;
          inversion Hall; congruence. }
    destruct (grid_square _ _ Hg) as (pos & Epos & Hsq & _).
    rewrite Epos in E. cbn [rbind] in E.
    destruct (visit b c pos vm) as [vm1| |] eqn:Ev; cbn [rbind] in E;
      try discriminate.
    rewrite (IH _ _ E x).
    rewrite (visit_collect b c pos vm vm1 (is_square_lower pos Hsq) Ev x).
    split.
    + intros [[H|[-> Hocc]]|(pre & k & post & -> & Hall & Ek & Hocc)];
        [now left| |].
      * right. exists [], m, moves. cbn. repeat split; auto.
      * right. exists (m :: pre), k, post. cbn. repeat split; auto.
    + intros [H|(pre & k & post & Hm & Hall & Ek & Hocc)]; [now left; left|].
      destruct pre as [|p pre]; cbn in Hm, Hall; injection Hm as <- ->.
      * left. right. rewrite Epos in Ek. injection Ek as <-. auto.
      * right. inversion Hall; subst. exists pre, k, post. auto.
Qed.

Lemma rook_ray_on_line (b : Board) (c : Color) (col row dc dr : Z)
    (vm vm' : list string) :
  In (dc, dr) rook_directions -> in_grid col row = true ->
  rook_ray b c col row (dc, dr) range_1_8 vm = Ok vm' ->
  forall x, In x vm' <-> In x vm \/ on_line b c col row [(dc, dr)] x.
Proof.
  intros Hd Hs E x.
  rewrite (rook_ray_collect b c col row dc dr range_1_8 vm vm' E x).
  assert (unit_dir dc dr) as Hu.
  { cbn in Hd. unfold unit_dir.
    destruct Hd as [H|[H|[H|[H|[]]]]]; injection H as <- <-; lia. }
  unfold on_line. split.
  - intros [H|(pre & k & post & Hm & Hall & Ek & Hocc)]; [now left|].
    right. exists (dc, dr), k. cbn [fst snd In].
    apply Forall_app in Hall as [_ Hk]. inversion Hk as [|? ? Hgk _]; subst.
    replace (col + k * dc) with (col + dc * k) by lia.
    replace (row + k * dr) with (row + dr * k) by lia.
    repeat split; auto.
    assert (In k range_1_8) as Hin by (rewrite Hm; apply in_elt).
    cbn in Hin. lia.
  - intros [H|(d & k & [<-|[]] & Hk & Hg & Ek & Hocc)]; [now left|].
    cbn [fst snd] in *. right.
    assert (k = 1 \/ k = 2 \/ k = 3 \/ k = 4 \/ k = 5 \/ k = 6 \/ k = 7)
      as Hcases.
    { apply in_grid_spec in Hs, Hg. cbn in Hd.
      destruct Hd as [H|[H|[H|[H|[]]]]]; injection H as <- <-; lia. }
    assert (forall j, 1 <= j <= k ->
              in_grid (col + dc * j) (row + dr * j) = true) as Hconv.
    { intros j Hj.
      replace (col + dc * j) with (col + j * dc) by lia.
      replace (row + dr * j) with (row + j * dr) by lia.
      exact (line_convex col row dc dr j k Hu Hs Hg Hj). }
    replace (col + k * dc) with (col + dc * k) in Ek by lia.
    replace (row + k * dr) with (row + dr * k) in Ek by lia.
    unfold range_1_8.
    destruct Hcases as [->|[->|[->|[->|[->|[->| ->]]]]]].
    + exists [], 1, [2; 3; 4; 5; 6; 7]. repeat split; auto.
      repeat constructor; apply Hconv; lia.
    + exists [1], 2, [3; 4; 5; 6; 7]. repeat split; auto.
      repeat constructor; apply Hconv; lia.
    + exists [1; 2], 3, [4; 5; 6; 7]. repeat split; auto.
      repeat constructor; apply Hconv; lia.
    + exists [1; 2; 3], 4, [5; 6; 7]. repeat split; auto.
      repeat constructor; apply Hconv; lia.
    + exists [1; 2; 3; 4], 5, [6; 7]. repeat split; auto.
      repeat constructor; apply Hconv; lia.
    + exists [1; 2; 3; 4; 5], 6, [7]. repeat split; auto.
      repeat constructor; apply Hconv; lia.
    + exists [1; 2; 3; 4; 5; 6], 7, []. repeat split; auto.
      repeat constructor; apply Hconv; lia.
Qed.

Lemma on_line_dirs (b : Board) (c : Color) (col row : Z) (dirs : list (Z * Z))
    (x : string) :
  (exists d, In d dirs /\ on_line b c col row [d] x) <->
  on_line b c col row dirs x.
Proof.
  unfold on_line. split.
  - intros (d & Hd & d' & k & [<-|[]] & H). exists d, k. auto.
  - intros (d & k & Hd & H). exists d. split; [exact Hd|].
    exists d, k. split; [now left|exact H].
Qed.

Lemma piece_ok_grid (p : Piece) (c0 r0 : Z) :
  piece_ok p = true -> coord_to_index (position p) = Ok (c0, r0) ->
  in_grid c0 r0 = true.
Proof.
  intros Hp Hc. apply piece_ok_inv in Hp as [Hsq _].
  destruct (is_square_coord _ Hsq) as (c & r & Hg & _ & Hc').
  rewrite Hc in Hc'. now injection Hc' as <- <-.
Qed.

Lemma rook_moves_on_line (b : Board) (p : Piece) (c0 r0 : Z) (ms : list string) :
  in_grid c0 r0 = true -> coord_to_index (position p) = Ok (c0, r0) ->
  rook_valid_moves b p = Ok ms ->
  forall x, In x ms <-> on_line b (color p) c0 r0 rook_directions x.
Proof.
  intros Hg Hc E x. unfold rook_valid_moves in E. rewrite Hc in E.
  cbn [rbind] in E.
  assert (forall d a a', In d rook_directions ->
            rook_ray b (color p) c0 r0 d range_1_8 a = Ok a' ->
            forall x, In x a' <-> In x a \/ on_line b (color p) c0 r0 [d] x)
    as Hbody.
  { intros [dc dr] a a' Hd Ha.
    exact (rook_ray_on_line b (color p) c0 r0 dc dr a a' Hd Hg Ha). }
  rewrite (for_each_collect
             (fun d x => on_line b (color p) c0 r0 [d] x)
             (fun vm diag => rook_ray b (color p) c0 r0 diag range_1_8 vm)
             rook_directions Hbody [] ms E x).
  rewrite on_line_dirs. cbn [In]. tauto.
Qed.

Lemma dirs_unit (d : Z * Z) : In d queen_directions -> unit_dir (fst d) (snd d).
Proof.
  cbn. unfold unit_dir.
  intros [H|[H|[H|[H|[H|[H|[H|[H|[]]]]]]]]]; subst d; cbn; lia.
Qed.

Lemma bishop_dirs_queen (d : Z * Z) :
  In d bishop_directions -> In d queen_directions.
Proof. cbn. intuition. Qed.

Lemma bishop_moves_on_line (b : Board) (p : Piece) (c0 r0 : Z)
    (ms : list string) :
  in_grid c0 r0 = true -> coord_to_index (position p) = Ok (c0, r0) ->
  bishop_valid_moves b p = Ok ms ->
  forall x, In x ms <-> on_line b (color p) c0 r0 bishop_directions x.
Proof.
  intros Hg Hc E x. unfold bishop_valid_moves in E. rewrite Hc in E.
  cbn [rbind] in E.
  assert (forall d a a', In d bishop_directions ->
            sweep sweep_fuel b (color p) c0 r0 d a = Ok a' ->
            forall x, In x a' <-> In x a \/ on_line b (color p) c0 r0 [d] x)
    as Hbody.
  { intros [dc dr] a a' Hd Ha.
    exact (sweep_on_line b (color p) c0 r0 dc dr _ a a'
             (dirs_unit _ (bishop_dirs_queen _ Hd)) Hg Ha). }
  rewrite (for_each_collect
             (fun d x => on_line b (color p) c0 r0 [d] x)
             (fun vm coords => sweep sweep_fuel b (color p) c0 r0 coords vm)
             bishop_directions Hbody [] ms E x).
  rewrite on_line_dirs. cbn [In]. tauto.
Qed.

Lemma queen_moves_on_line (b : Board) (p : Piece) (c0 r0 : Z)
    (ms : list string) :
  in_grid c0 r0 = true -> coord_to_index (position p) = Ok (c0, r0) ->
  queen_valid_moves b p = Ok ms ->
  forall x, In x ms <-> on_line b (color p) c0 r0 queen_directions x.
Proof.
  intros Hg Hc E x. unfold queen_valid_moves in E. rewrite Hc in E.
  cbn [rbind] in E.
  assert (forall d a a', In d queen_directions ->
            sweep sweep_fuel b (color p) c0 r0 d a = Ok a' ->
            forall x, In x a' <-> In x a \/ on_line b (color p) c0 r0 [d] x)
    as Hbody.
  { intros [dc dr] a a' Hd Ha.
    exact (sweep_on_line b (color p) c0 r0 dc dr _ a a' (dirs_unit _ Hd) Hg Ha). }
  rewrite (for_each_collect
             (fun d x => on_line b (color p) c0 r0 [d] x)
             (fun vm coords => sweep sweep_fuel b (color p) c0 r0 coords vm)
             queen_directions Hbody [] ms E x).
  rewrite on_line_dirs. cbn [In]. tauto.
Qed.

Lemma step_moves (b : Board) (c : Color) (c0 r0 : Z) (dirs : list (Z * Z))
    (ms : list string) :
  for_each dirs (step_to b c c0 r0) [] = Ok ms ->
  forall x, In x ms <-> one_step b c c0 r0 dirs x.
Proof.
  intros E x.
  assert (forall d a a', In d dirs -> step_to b c c0 r0 a d = Ok a' ->
            forall x,
              In x a' <->
              In x a \/
              (in_grid (c0 + fst d) (r0 + snd d) = true /\
               index_to_coord (c0 + fst d) (r0 + snd d) = Ok x /\
               occupiable b c x)) as Hbody.
  { intros d a a' _ Ha. exact (step_to_collect b c c0 r0 a a' d Ha). }
  rewrite (for_each_collect _ (step_to b c c0 r0) dirs Hbody [] ms E x).
  unfold one_step. cbn [In]. tauto.
Qed.

Lemma step_to_returns (b : Board) (c : Color) (c0 r0 : Z) (vm : list string)
    (offset : Z * Z) :
  exists vm', step_to b c c0 r0 vm offset = Ok vm'.
Proof.
  unfold step_to.
  change ((0 <=? c0 + fst offset) && (c0 + fst offset <? 8) &&
          (0 <=? r0 + snd offset) && (r0 + snd offset <? 8))
    with (in_grid (c0 + fst offset) (r0 + snd offset)).
  destruct (in_grid (c0 + fst offset) (r0 + snd offset)) eqn:Hg; [|eauto].
  destruct (grid_square _ _ Hg) as (pos & -> & _). cbn [rbind].
  rewrite is_opponent_str.
  destruct (is_square_open b pos); cbn [rbind]; [eauto|].
  destruct (b !! Py.lower pos) as [q|]; [|eauto].
  destruct (negb (color_eqb (color q) c)); eauto.
Qed.

Lemma step_moves_return (b : Board) (c : Color) (c0 r0 : Z)
    (dirs : list (Z * Z)) :
  exists ms, for_each dirs (step_to b c c0 r0) [] = Ok ms.
Proof.
  destruct (for_each_ok (fun _ => True) (step_to b c c0 r0) dirs [])
    as (ms & E & _); [|exact I|eauto].
  apply List.Forall_forall. intros d _ a _.
  destruct (step_to_returns b c c0 r0 a d) as (a' & E). eauto.
Qed.

(** ** The destinations of each class, in full *)

(** X1.  A knight whose position reads [(c0, r0)] is given exactly the
    squares of the grid at one of its eight offsets that are empty or hold
    a piece of the other colour, whatever stands in between; the call
    returns for every board. *)
Theorem knight_destinations (b : Board) (p : Piece) (c0 r0 : Z) :
  kind p = Knight ->
  coord_to_index (position p) = Ok (c0, r0) ->
  exists ms,
    valid_moves b p = Ok ms /\
    forall x, In x ms <-> one_step b (color p) c0 r0 knight_directions x.
Proof.
  intros Hk Hc. unfold valid_moves, knight_valid_moves. rewrite Hk, Hc.
  cbn [rbind]. fold knight_directions.
  destruct (step_moves_return b (color p) c0 r0 knight_directions) as (ms & E).
  exists ms. split; [exact E|]. now apply step_moves.
Qed.

Lemma knight_destinations_witness :
  kind (new_piece Knight WHITE "b1") = Knight /\
  coord_to_index (position (new_piece Knight WHITE "b1")) = Ok (1, 7) /\
  exists ms,
    valid_moves board_start (new_piece Knight WHITE "b1") = Ok ms /\
    forall x, In x ms <-> one_step board_start WHITE 1 7 knight_directions x.
Proof.
  split; [reflexivity|]. split; [reflexivity|].
  exact (knight_destinations board_start (new_piece Knight WHITE "b1") 1 7
           eq_refl eq_refl).
Defined.

(** X2.  A king whose position reads [(c0, r0)] is given exactly the
    squares of the grid next to it (eight offsets) that are empty or hold
    a piece of the other colour; no square is left out because it is
    attacked. *)
Theorem king_destinations (b : Board) (p : Piece) (c0 r0 : Z) :
  kind p = King ->
  coord_to_index (position p) = Ok (c0, r0) ->
  exists ms,
    valid_moves b p = Ok ms /\
    forall x, In x ms <-> one_step b (color p) c0 r0 queen_directions x.
Proof.
  intros Hk Hc. unfold valid_moves, king_valid_moves. rewrite Hk, Hc.
  cbn [rbind]. fold queen_directions.
  destruct (step_moves_return b (color p) c0 r0 queen_directions) as (ms & E).
  exists ms. split; [exact E|]. now apply step_moves.
Qed.

Lemma king_destinations_witness :
  kind (new_piece King WHITE "e1") = King /\
  coord_to_index (position (new_piece King WHITE "e1")) = Ok (4, 7) /\
  exists ms,
    valid_moves board_start (new_piece King WHITE "e1") = Ok ms /\
    forall x, In x ms <-> one_step board_start WHITE 4 7 queen_directions x.
Proof.
  split; [reflexivity|]. split; [reflexivity|].
  exact (king_destinations board_start (new_piece King WHITE "e1") 4 7
           eq_refl eq_refl).
Defined.

(** X3.  A rook on a square of the grid is given exactly the squares of
    its rank and file, as far as the edge of the grid, that are empty or
    hold a piece of the other colour: a square behind an occupied square
    is given like any other. *)
Theorem rook_destinations (b : Board) (p : Piece) (c0 r0 : Z) :
  kind p = Rook -> piece_ok p = true ->
  coord_to_index (position p) = Ok (c0, r0) ->
  exists ms,
    valid_moves b p = Ok ms /\
    forall x, In x ms <-> on_line b (color p) c0 r0 rook_directions x.
Proof.
  intros Hk Hp Hc. destruct (valid_moves_total b p Hp) as (ms & E).
  exists ms. split; [exact E|].
  unfold valid_moves in E. rewrite Hk in E.
  exact (rook_moves_on_line b p c0 r0 ms (piece_ok_grid p c0 r0 Hp Hc) Hc E).
Qed.

Lemma rook_destinations_witness :
  piece_ok (new_piece Rook WHITE "a1") = true /\
  exists ms,
    valid_moves board_start (new_piece Rook WHITE "a1") = Ok ms /\
    forall x, In x ms <-> on_line board_start WHITE 0 7 rook_directions x.
Proof.
  assert (piece_ok (new_piece Rook WHITE "a1") = true) as Hp
      by (vm_compute; reflexivity).
  split; [exact Hp|].
  exact (rook_destinations board_start (new_piece Rook WHITE "a1") 0 7
           eq_refl Hp eq_refl).
Defined.

(** X4.  A bishop on a square of the grid is given exactly the squares of
    its two diagonals, as far as the edge of the grid, that are empty or
    hold a piece of the other colour. *)
Theorem bishop_destinations (b : Board) (p : Piece) (c0 r0 : Z) :
  kind p = Bishop -> piece_ok p = true ->
  coord_to_index (position p) = Ok (c0, r0) ->
  exists ms,
    valid_moves b p = Ok ms /\
    forall x, In x ms <-> on_line b (color p) c0 r0 bishop_directions x.
Proof.
  intros Hk Hp Hc. destruct (valid_moves_total b p Hp) as (ms & E).
  exists ms. split; [exact E|].
  unfold valid_moves in E. rewrite Hk in E.
  exact (bishop_moves_on_line b p c0 r0 ms (piece_ok_grid p c0 r0 Hp Hc) Hc E).
Qed.

Lemma bishop_destinations_witness :
  piece_ok (new_piece Bishop WHITE "c1") = true /\
  exists ms,
    valid_moves board_start (new_piece Bishop WHITE "c1") = Ok ms /\
    forall x, In x ms <-> on_line board_start WHITE 2 7 bishop_directions x.
Proof.
  assert (piece_ok (new_piece Bishop WHITE "c1") = true) as Hp
      by (vm_compute; reflexivity).
  split; [exact Hp|].
  exact (bishop_destinations board_start (new_piece Bishop WHITE "c1") 2 7
           eq_refl Hp eq_refl).
Defined.

(** X5.  A queen on a square of the grid is given exactly the squares of
    its rank, file and diagonals, as far as the edge of the grid, that are
    empty or hold a piece of the other colour. *)
Theorem queen_destinations (b : Board) (p : Piece) (c0 r0 : Z) :
  kind p = Queen -> piece_ok p = true ->
  coord_to_index (position p) = Ok (c0, r0) ->
  exists ms,
    valid_moves b p = Ok ms /\
    forall x, In x ms <-> on_line b (color p) c0 r0 queen_directions x.
Proof.
  intros Hk Hp Hc. destruct (valid_moves_total b p Hp) as (ms & E).
  exists ms. split; [exact E|].
  unfold valid_moves in E. rewrite Hk in E.
  exact (queen_moves_on_line b p c0 r0 ms (piece_ok_grid p c0 r0 Hp Hc) Hc E).
Qed.

Lemma queen_destinations_witness :
  piece_ok (new_piece Queen WHITE "d1") = true /\
  exists ms,
    valid_moves board_start (new_piece Queen WHITE "d1") = Ok ms /\
    forall x, In x ms <-> on_line board_start WHITE 3 7 queen_directions x.
Proof.
  assert (piece_ok (new_piece Queen WHITE "d1") = true) as Hp
      by (vm_compute; reflexivity).
  split; [exact Hp|].
  exact (queen_destinations board_start (new_piece Queen WHITE "d1") 3 7
           eq_refl Hp eq_refl).
Defined.

Lemma on_line_queen_split (b : Board) (c : Color) (col row : Z) (x : string) :
  on_line b c col row queen_directions x <->
  on_line b c col row rook_directions x \/
  on_line b c col row bishop_directions x.
Proof.
  unfold on_line. split.
  - intros (d & k & Hd & H). cbn in Hd.
    destruct Hd as [<-|[<-|[<-|[<-|[<-|[<-|[<-|[<-|[]]]]]]]]];
      [left|left|left|left|right|right|right|right];
      eexists _, k; (split; [|exact H]); cbn; tauto.
  - intros [(d & k & Hd & H)|(d & k & Hd & H)]; exists d, k;
      (split; [|exact H]); cbn in Hd |- *; tauto.
Qed.

(** X6.  From the same square and with the same colour, on any board, the
    queen's destinations are the rook's together with the bishop's. *)
Theorem queen_is_rook_and_bishop (b : Board) (p : Piece)
    (mq mr mb : list string) :
  piece_ok p = true ->
  queen_valid_moves b p = Ok mq ->
  rook_valid_moves b p = Ok mr ->
  bishop_valid_moves b p = Ok mb ->
  forall x, In x mq <-> In x mr \/ In x mb.
Proof.
  intros Hp Eq Er Eb x.
  pose proof Hp as Hp'. apply piece_ok_inv in Hp' as [Hsq _].
  destruct (is_square_coord _ Hsq) as (c0 & r0 & Hg & _ & Hc).
  rewrite (queen_moves_on_line b p c0 r0 mq Hg Hc Eq x).
  rewrite (rook_moves_on_line b p c0 r0 mr Hg Hc Er x).
  rewrite (bishop_moves_on_line b p c0 r0 mb Hg Hc Eb x).
  apply on_line_queen_split.
Qed.

Lemma queen_is_rook_and_bishop_witness :
  piece_ok (new_piece Queen WHITE "d1") = true /\
  forall x,
    In x ["d3"; "d4"; "d5"; "d6"; "d7"; "d8"; "b3"; "a4"; "f3"; "g4"; "h5"] <->
    In x ["d3"; "d4"; "d5"; "d6"; "d7"; "d8"] \/
    In x ["b3"; "a4"; "f3"; "g4"; "h5"].
Proof.
  assert (piece_ok (new_piece Queen WHITE "d1") = true) as Hp
      by (vm_compute; reflexivity).
  split; [exact Hp|].
  apply (queen_is_rook_and_bishop board_start (new_piece Queen WHITE "d1"));
    [exact Hp|vm_compute; reflexivity..].
Defined.

(** X7.  A pawn on a square of the grid is given exactly: the square one
    step ahead when it is on the grid and empty; the square two steps
    ahead when the flag is true, both squares ahead are on the grid and
    that square is empty; and each of the two squares diagonally ahead
    (file on the grid) that holds a piece of the other colour.  It is
    never given the square straight ahead when that square is occupied,
    nor a diagonal square that is empty or holds its own colour. *)
Theorem pawn_destinations (b : Board) (p : Piece) (c0 r0 : Z) :
  kind p = Pawn -> piece_ok p = true ->
  coord_to_index (position p) = Ok (c0, r0) ->
  exists ms,
    valid_moves b p = Ok ms /\
    forall x,
      In x ms <->
      (in_grid c0 (r0 - pawn_direction (color p)) = true /\
       ahead p 1 = Ok x /\ b !! x = None) \/
      (init_move p = Some true /\
       in_grid c0 (r0 - pawn_direction (color p)) = true /\
       in_grid c0 (r0 - 2 * pawn_direction (color p)) = true /\
       ahead p 2 = Ok x /\ b !! x = None) \/
      (exists d, (d = -1 \/ d = 1) /\ 0 <= c0 + d < 8 /\
                 index_to_coord (c0 + d) (r0 - pawn_direction (color p)) = Ok x /\
                 exists q, b !! x = Some q /\ color q <> color p).
Proof.
  intros Hk Hp Hc. destruct (valid_moves_total b p Hp) as (ms & E).
  exists ms. split; [exact E|]. intros x.
  pose proof (piece_ok_grid p c0 r0 Hp Hc) as Hg.
  apply in_grid_spec in Hg as [Hc0 Hr0].
  unfold valid_moves in E. rewrite Hk in E.
  rewrite (pawn_moves_shape b p c0 r0 ms Hc0 Hc E x).
  unfold ahead. rewrite Hc. cbn [rbind fst snd]. rewrite !in_grid_spec.
  replace (r0 - 1 * pawn_direction (color p))
    with (r0 - pawn_direction (color p)) by lia.
  split.
  - intros [(H1 & H2 & H3)|[(H1 & H2 & H3 & H4 & H5)|H]].
    + left. repeat split; auto; lia.
    + right. left. repeat split; auto; lia.
    + right. right. exact H.
  - intros [((_ & H1) & H2 & H3)|[(H1 & (_ & H2) & (_ & H3) & H4 & H5)|H]].
    + left. auto.
    + right. left. auto.
    + right. right. exact H.
Qed.

Lemma pawn_destinations_witness :
  piece_ok (new_piece Pawn BLACK "e7") = true /\
  exists ms,
    valid_moves board_start (new_piece Pawn BLACK "e7") = Ok ms /\
    (In "e5" ms <->
     (in_grid 4 (1 - -1) = true /\
      ahead (new_piece Pawn BLACK "e7") 1 = Ok "e5" /\
      board_start !! "e5" = None) \/
     (Some true = Some true /\
      in_grid 4 (1 - -1) = true /\ in_grid 4 (1 - 2 * -1) = true /\
      ahead (new_piece Pawn BLACK "e7") 2 = Ok "e5" /\
      board_start !! "e5" = None) \/
     (exists d, (d = -1 \/ d = 1) /\ 0 <= 4 + d < 8 /\
                index_to_coord (4 + d) (1 - -1) = Ok "e5" /\
                exists q, board_start !! "e5" = Some q /\ color q <> BLACK)).
Proof.
  assert (piece_ok (new_piece Pawn BLACK "e7") = true) as Hp
      by (vm_compute; reflexivity).
  split; [exact Hp|].
  destruct (pawn_destinations board_start (new_piece Pawn BLACK "e7") 4 1
              eq_refl Hp eq_refl) as (ms & E & H).
  exists ms. split; [exact E|]. exact (H "e5").
Defined.

Lemma valid_moves_wf_facts (b : Board) (k : string) (p : Piece)
    (ms : list string) :
  wf_board b -> b !! k = Some p -> valid_moves b p = Ok ms ->
  forall m, In m ms ->
    is_square m = true /\ m <> k /\ occupiable b (color p) m.
Proof.
  intros Hwf Ep E m Hin.
  destruct (wf_board_lookup b k p Hwf Ep) as [Hp Hpos].
  destruct (valid_moves_ok b p Hp) as (c0 & r0 & ms' & Hg & Hname & E' & Hall).
  rewrite E in E'. injection E' as <-.
  split; [exact (valid_moves_squares b k p ms Hwf Ep E m Hin)|].
  split.
  - intros ->. apply (valid_moves_not_own b p ms Hp E). now rewrite Hpos.
  - rewrite List.Forall_forall in Hall.
    destruct (Hall m Hin) as (col & row & _ & _ & _ & [[_ Hn]|Hq]);
      [now left|now right].
Qed.

(** X8.  On a well-formed board, whatever the class of the piece, every
    destination that [valid_moves] returns is one of the 64 squares, is
    not the square of the piece, and is empty or holds a piece of the
    other colour: no piece is offered a square off the grid or a capture
    of its own colour. *)
Theorem destinations_on_grid (b : Board) (k : string) (p : Piece) :
  wf_board b -> b !! k = Some p ->
  exists ms,
    valid_moves b p = Ok ms /\
    forall m, In m ms ->
      is_square m = true /\ m <> k /\ occupiable b (color p) m.
Proof.
  intros Hwf Ep.
  destruct (wf_board_lookup b k p Hwf Ep) as [Hp _].
  destruct (valid_moves_total b p Hp) as (ms & E).
  exists ms. split; [exact E|].
  exact (valid_moves_wf_facts b k p ms Hwf Ep E).
Qed.

Lemma destinations_on_grid_witness :
  wf_board board_start /\
  board_start !! "g8" = Some (new_piece Knight BLACK "g8") /\
  exists ms,
    valid_moves board_start (new_piece Knight BLACK "g8") = Ok ms /\
    forall m, In m ms ->
      is_square m = true /\ m <> "g8" /\ occupiable board_start BLACK m.
Proof.
  assert (wf_board board_start) as Hwf by (vm_compute; reflexivity).
  split; [exact Hwf|]. split; [vm_compute; reflexivity|].
  apply (destinations_on_grid board_start "g8"
           (new_piece Knight BLACK "g8") Hwf).
  vm_compute. reflexivity.
Defined.

(** X9.  The [while True] loops of the bishop and the queen always reach
    their [break]: from any start, on any board and in each of the eight
    directions, nine iterations or more all return the same list. *)
Theorem while_loops_terminate (b : Board) (c : Color) (col row : Z)
    (d : Z * Z) (vm : list string) (n : nat) :
  In d queen_directions -> (9 <= n)%nat ->
  exists vm',
    sweep n b c col row d vm = Ok vm' /\ sweep 9 b c col row d vm = Ok vm'.
Proof.
  intros Hd Hn. destruct d as [dc dr].
  destruct (sweep_returns b c dc dr (dirs_unit _ Hd) 9 col row vm)
    as (vm' & E); [|lia|].
  - intros Hg. pose proof (pot_grid dc dr _ _ (dirs_unit _ Hd) Hg). lia.
  - exists vm'. split; [|exact E].
    rewrite (sweep_more_fuel b c (dc, dr) 9 n col row vm Hn); [exact E|].
    rewrite E. discriminate.
Qed.

Lemma while_loops_terminate_witness :
  In (1, -1) queen_directions /\ (9 <= 20)%nat /\
  exists vm',
    sweep 20 board_start WHITE 2 7 (1, -1) [] = Ok vm' /\
    sweep 9 board_start WHITE 2 7 (1, -1) [] = Ok vm'.
Proof.
  assert (In (1, -1) queen_directions) as Hd by (vm_compute; tauto).
  split; [exact Hd|]. split; [lia|].
  apply (while_loops_terminate board_start WHITE 2 7 (1, -1) [] 20 Hd). lia.
Defined.

(** ** The outcomes of [make_move] *)

Lemma make_move_origin_raises (f t : Z * Z) (g : ChessGame) (r : result string) :
  game_state g = "UNFINISHED" ->
  index_to_coord (fst f) (snd f) = r -> (forall s, r <> Ok s) ->
  init_pos (snd (make_move f t g)) = init_pos g /\
  player_turn (snd (make_move f t g)) = player_turn g /\
  game_state (snd (make_move f t g)) = game_state g /\
  fst (make_move f t g) <> Ok true.
Proof.
  intros Est Ef Hr. cbv [make_move bind reading ret get_game_state get_player_turn].
  rewrite Est. cbn [String.eqb Ascii.eqb Bool.eqb negb].
  unfold get_piece. rewrite Ef.
  destruct r as [s| |]; [now destruct (Hr s)| |]; cbn [rbind fst snd];
    repeat split; first [reflexivity|assumption|discriminate].
Qed.

Lemma make_move_dest_raises (f t : Z * Z) (g : ChessGame) (fs : string)
    (r : result string) :
  game_state g = "UNFINISHED" ->
  index_to_coord (fst f) (snd f) = Ok fs ->
  index_to_coord (fst t) (snd t) = r -> (forall s, r <> Ok s) ->
  init_pos (snd (make_move f t g)) = init_pos g /\
  player_turn (snd (make_move f t g)) = player_turn g /\
  game_state (snd (make_move f t g)) = game_state g /\
  fst (make_move f t g) <> Ok true.
Proof.
  intros Est Ef Et Hr.
  cbv [make_move bind reading ret get_game_state get_player_turn].
  rewrite Est. cbn [String.eqb Ascii.eqb Bool.eqb negb].
  unfold get_piece. rewrite Ef, Et. cbn [rbind].
  destruct r as [s| |]; [now destruct (Hr s)| |]; cbn [rbind fst snd];
    repeat split; first [reflexivity|assumption|discriminate].
Qed.

(** The origin names a piece through [lower], but is not itself a key:
    [pop] raises after the outcome has been set. *)
Lemma make_move_key_error (f t : Z * Z) (g : ChessGame) (p : Piece)
    (fs ts : string) (ms : list string) :
  game_state g = "UNFINISHED" ->
  index_to_coord (fst f) (snd f) = Ok fs ->
  index_to_coord (fst t) (snd t) = Ok ts ->
  init_pos g !! Py.lower fs = Some p ->
  color p = player_turn g ->
  valid_moves (init_pos g) p = Ok ms ->
  In ts ms ->
  init_pos g !! fs = None ->
  make_move f t g
  = (Raise KeyError,
     {| game_state := if is_king (init_pos g !! Py.lower ts)
                      then won (color p) else game_state g;
        player_turn := player_turn g;
        init_pos := init_pos g |}).
Proof.
  intros Est Ef Et Ep Ecol Ems Hin Eq.
  cbv [make_move bind reading ret get_game_state get_player_turn].
  rewrite Est. cbn [String.eqb Ascii.eqb Bool.eqb negb].
  rewrite !(get_piece_tuple (init_pos g) _ _ _ Ef),
          !(get_piece_tuple (init_pos g) _ _ _ Et), Ep.
  apply color_eqb_eq in Ecol. rewrite Ecol. cbn [negb].
  unfold is_valid_move.
  rewrite (get_piece_tuple (init_pos g) _ _ _ Ef), Ep. cbn [rbind].
  rewrite Ems. cbn [rbind]. rewrite Et. cbn [rbind].
  apply in_existsb in Hin. rewrite Hin. cbn [negb].
  rewrite Ef. cbv beta iota.
  cbv [pop_square set_game_state]. unfold won.
  destruct (is_king (init_pos g !! Py.lower ts)).
  - destruct (color p);
      match goal with
      | |- context [existsb (String.eqb ?s) all_states] =>
          replace (existsb (String.eqb s) all_states) with true by reflexivity
      end;
      cbn [init_pos game_state player_turn]; rewrite Eq; reflexivity.
  - cbn [init_pos]. rewrite Eq, <- Est. now destruct g.
Qed.

(** Every call of [make_move] on a well-formed board ends in one of four
    ways. *)
Lemma make_move_outcomes (f t : Z * Z) (g : ChessGame) :
  wf_board (init_pos g) ->
  (* refused *)
  make_move f t g = (Ok false, g) \/
  (* no notation for the origin or the destination *)
  (fst (make_move f t g) <> Ok true /\ snd (make_move f t g) = g /\
   ((forall s, index_to_coord (fst f) (snd f) <> Ok s) \/
    (forall s, index_to_coord (fst t) (snd t) <> Ok s))) \/
  (* the origin is not a key *)
  (exists p fs ts ms,
     game_state g = "UNFINISHED" /\
     index_to_coord (fst f) (snd f) = Ok fs /\
     index_to_coord (fst t) (snd t) = Ok ts /\
     init_pos g !! Py.lower fs = Some p /\ color p = player_turn g /\
     valid_moves (init_pos g) p = Ok ms /\ In ts ms /\
     init_pos g !! fs = None /\
     make_move f t g
     = (Raise KeyError,
        {| game_state := if is_king (init_pos g !! Py.lower ts)
                         then won (color p) else game_state g;
           player_turn := player_turn g;
           init_pos := init_pos g |})) \/
  (* carried out *)
  (exists p fs ts ms,
     game_state g = "UNFINISHED" /\
     index_to_coord (fst f) (snd f) = Ok fs /\
     index_to_coord (fst t) (snd t) = Ok ts /\
     init_pos g !! fs = Some p /\ color p = player_turn g /\
     valid_moves (init_pos g) p = Ok ms /\ In ts ms /\
     make_move f t g
     = (Ok true, moved_game g p fs ts (is_king (init_pos g !! ts)))).
Proof.
  intros Hwf.
  destruct (string_dec (game_state g) "UNFINISHED") as [Est|Hne];
    [|left; now apply make_move_finished].
  destruct (index_to_coord (fst f) (snd f)) as [fs| |] eqn:Ef.
  2,3: right; left;
       destruct (make_move_origin_raises f t g _ Est Ef ltac:(discriminate))
         as (H1 & H2 & H3 & H4);
       (split; [exact H4|]); (split; [|left; intros s; discriminate]);
       destruct (snd (make_move f t g)), g; cbn in *; congruence.
  destruct (index_to_coord (fst t) (snd t)) as [ts| |] eqn:Et.
  2,3: right; left;
       destruct (make_move_dest_raises f t g fs _ Est Ef Et ltac:(discriminate))
         as (H1 & H2 & H3 & H4);
       (split; [exact H4|]); (split; [|right; intros s; discriminate]);
       destruct (snd (make_move f t g)), g; cbn in *; congruence.
  destruct (init_pos g !! Py.lower fs) as [p|] eqn:Ep.
  2:{ left. eapply make_move_no_piece.
      - rewrite (get_piece_tuple (init_pos g) _ _ _ Ef). now rewrite Ep.
      - exact (get_piece_tuple (init_pos g) _ _ _ Et). }
  assert (get_piece (init_pos g) (PTuple (fst f) (snd f)) = Ok (Some p)) as Gf
      by (rewrite (get_piece_tuple (init_pos g) _ _ _ Ef); now rewrite Ep).
  pose proof (get_piece_tuple (init_pos g) _ _ _ Et) as Gt.
  destruct (color_eqb (color p) (player_turn g)) eqn:Ecol.
  2:{ left. eapply make_move_wrong_color; [exact Gf|exact Gt|].
      intros H. apply color_eqb_eq in H. congruence. }
  apply color_eqb_eq in Ecol.
  destruct (wf_board_lookup _ _ _ Hwf Ep) as [Hp Hpos].
  destruct (valid_moves_total (init_pos g) p Hp) as (ms & Ems).
  destruct (in_dec string_dec ts ms) as [Hin|Hnin].
  2:{ left. eapply make_move_invalid; [exact Gf|exact Gt|].
      eapply is_valid_move_not_in; eassumption. }
  destruct (init_pos g !! fs) as [q|] eqn:Eq.
  - right. right. right.
    destruct (move_facts_wf _ _ _ _ _ _ Hwf Ep Eq Ems Hin)
      as (_ & -> & _).
    exists p, fs, ts, ms. repeat split; auto.
    eapply make_move_accepts; eassumption.
  - right. right. left. exists p, fs, ts, ms. repeat split; auto.
    eapply make_move_key_error; eassumption.
Qed.

Lemma is_valid_move_true_inv (g : ChessGame) (f t : Z * Z) :
  is_valid_move g f t = Ok true ->
  exists fs ts p ms,
    index_to_coord (fst f) (snd f) = Ok fs /\
    index_to_coord (fst t) (snd t) = Ok ts /\
    init_pos g !! Py.lower fs = Some p /\
    valid_moves (init_pos g) p = Ok ms /\ In ts ms.
Proof.
  unfold is_valid_move, get_piece. intros H.
  destruct (index_to_coord (fst f) (snd f)) as [fs| |] eqn:Ef;
    cbn [rbind] in H; try discriminate.
  destruct (init_pos g !! Py.lower fs) as [p|] eqn:Ep; [|discriminate].
  destruct (valid_moves (init_pos g) p) as [ms| |] eqn:Ems; cbn [rbind] in H;
    try discriminate.
  destruct (index_to_coord (fst t) (snd t)) as [ts| |] eqn:Et;
    cbn [rbind] in H; try discriminate.
  destruct (existsb (String.eqb ts) ms) eqn:Ein; [|discriminate].
  apply in_existsb in Ein. exists fs, ts, p, ms.
  repeat split; first [reflexivity|assumption].
Qed.

Lemma is_valid_move_true_intro (g : ChessGame) (f t : Z * Z) (fs ts : string)
    (p : Piece) (ms : list string) :
  index_to_coord (fst f) (snd f) = Ok fs ->
  index_to_coord (fst t) (snd t) = Ok ts ->
  init_pos g !! Py.lower fs = Some p ->
  valid_moves (init_pos g) p = Ok ms -> In ts ms ->
  is_valid_move g f t = Ok true.
Proof.
  intros Ef Et Ep Ems Hin. unfold is_valid_move, get_piece.
  rewrite Ef. cbn [rbind]. rewrite Ep, Ems. cbn [rbind]. rewrite Et.
  cbn [rbind]. apply in_existsb in Hin. now rewrite Hin.
Qed.

(** X10.  On a well-formed board, for an origin and a destination that
    have a notation, [make_move] returns [True] exactly when the game is
    UNFINISHED, [is_valid_move] returns [True] for the same arguments, and
    the origin is the key of a piece of the colour to move. *)
Theorem make_move_true_iff (g : ChessGame) (f t : Z * Z) (fs ts : string) :
  wf_board (init_pos g) ->
  index_to_coord (fst f) (snd f) = Ok fs ->
  index_to_coord (fst t) (snd t) = Ok ts ->
  (fst (make_move f t g) = Ok true <->
   game_state g = "UNFINISHED" /\
   is_valid_move g f t = Ok true /\
   exists p, init_pos g !! fs = Some p /\ color p = player_turn g).
Proof.
  intros Hwf Ef Et. split.
  - intros H.
    destruct (make_move_outcomes f t g Hwf)
      as [E|[(Hn & _)|[(p & fs' & ts' & ms & _ & _ & _ & _ & _ & _ & _ & _ & E)|
          (p & fs' & ts' & ms & Est & Ef' & Et' & Ep & Ecol & Ems & Hin & E)]]].
    + rewrite E in H. discriminate.
    + contradiction.
    + rewrite E in H. discriminate.
    + rewrite Ef in Ef'. injection Ef' as <-.
      rewrite Et in Et'. injection Et' as <-.
      split; [exact Est|]. split; [|eauto].
      eapply is_valid_move_true_intro; eauto.
      now rewrite (is_square_lower _ (wf_board_key _ _ _ Hwf Ep)).
  - intros (Est & Hv & p & Ep & Ecol).
    apply is_valid_move_true_inv in Hv
      as (fs' & ts' & p' & ms & Ef' & Et' & Ep' & Ems & Hin).
    rewrite Ef in Ef'. injection Ef' as <-.
    rewrite Et in Et'. injection Et' as <-.
    rewrite (is_square_lower _ (wf_board_key _ _ _ Hwf Ep)) in Ep'.
    rewrite Ep in Ep'. injection Ep' as <-.
    now rewrite (make_move_accepts g f t p fs ts ms Hwf Est Ef Et Ep Ecol Ems Hin).
Qed.

Lemma make_move_true_iff_witness :
  wf_board (init_pos new_game) /\
  (fst (make_move (6, 7) (5, 5) new_game) = Ok true <->
   game_state new_game = "UNFINISHED" /\
   is_valid_move new_game (6, 7) (5, 5) = Ok true /\
   exists p, init_pos new_game !! "g1" = Some p /\
             color p = player_turn new_game).
Proof.
  assert (wf_board (init_pos new_game)) as Hwf by (vm_compute; reflexivity).
  split; [exact Hwf|].
  apply (make_move_true_iff new_game (6, 7) (5, 5) "g1" "f3" Hwf);
    reflexivity.
Defined.

(** X11.  On a well-formed board a call of [make_move] that does not
    return [True] (it returns [False] or raises) leaves the board and the
    turn as they were: no move is ever half applied. *)
Theorem no_partial_move (g : ChessGame) (f t : Z * Z) :
  wf_board (init_pos g) ->
  fst (make_move f t g) <> Ok true ->
  init_pos (snd (make_move f t g)) = init_pos g /\
  player_turn (snd (make_move f t g)) = player_turn g.
Proof.
  intros Hwf Hn.
  destruct (make_move_outcomes f t g Hwf)
    as [E|[(_ & E & _)|[(p & fs & ts & ms & _ & _ & _ & _ & _ & _ & _ & _ & E)|
        (p & fs & ts & ms & _ & _ & _ & _ & _ & _ & _ & E)]]].
  - now rewrite E.
  - now rewrite E.
  - now rewrite E.
  - rewrite E in Hn. now destruct Hn.
Qed.

Lemma no_partial_move_witness :
  wf_board (init_pos new_game) /\
  fst (make_move (-28, 6) (4, 4) new_game) = Raise KeyError /\
  init_pos (snd (make_move (-28, 6) (4, 4) new_game)) = init_pos new_game /\
  player_turn (snd (make_move (-28, 6) (4, 4) new_game)) = player_turn new_game.
Proof.
  assert (wf_board (init_pos new_game)) as Hwf by (vm_compute; reflexivity).
  split; [exact Hwf|].
  assert (fst (make_move (-28, 6) (4, 4) new_game) = Raise KeyError) as E
      by (vm_compute; reflexivity).
  split; [exact E|].
  apply (no_partial_move new_game (-28, 6) (4, 4) Hwf).
  rewrite E. discriminate.
Defined.

(** X12.  On a well-formed board the outcome leaves UNFINISHED in one way
    only: a call of [make_move] whose destination holds the king of the
    colour that is not to move; the outcome is then the WON state of the
    colour to move. *)
Theorem outcome_decided_by_king_capture (g : ChessGame) (f t : Z * Z) :
  wf_board (init_pos g) ->
  game_state g = "UNFINISHED" ->
  game_state (snd (make_move f t g)) <> "UNFINISHED" ->
  exists ts k,
    index_to_coord (fst t) (snd t) = Ok ts /\
    init_pos g !! ts = Some k /\ kind k = King /\
    color k = other (player_turn g) /\
    game_state (snd (make_move f t g)) = won (player_turn g).
Proof.
  intros Hwf Est Hn.
  assert (forall p ts ms (key : string),
            init_pos g !! key = Some p -> color p = player_turn g ->
            valid_moves (init_pos g) p = Ok ms -> In ts ms ->
            is_king (init_pos g !! ts) = true ->
            exists k, init_pos g !! ts = Some k /\ kind k = King /\
                      color k = other (player_turn g)) as Hking.
  { intros p ts ms key Ep Ecol Ems Hin Hk.
    destruct (valid_moves_wf_facts _ _ _ _ Hwf Ep Ems ts Hin)
      as (_ & _ & Hocc).
    unfold is_king in Hk. destruct (init_pos g !! ts) as [k|] eqn:Ek;
      [|discriminate].
    exists k. split; [reflexivity|]. split.
    - destruct (kind k); try discriminate; reflexivity.
    - destruct Hocc as [H|(q & Hq & Hc)]; [congruence|].
      assert (q = k) as -> by congruence.
      rewrite <- Ecol. destruct (color k), (color p); try reflexivity;
        now destruct Hc. }
  destruct (make_move_outcomes f t g Hwf)
    as [E|[(_ & E & _)|
        [(p & fs & ts & ms & _ & _ & Et & Ep & Ecol & Ems & Hin & _ & E)|
         (p & fs & ts & ms & _ & _ & Et & Ep & Ecol & Ems & Hin & E)]]];
    rewrite E in Hn |- *; cbn [snd game_state] in Hn |- *;
    try congruence.
  - pose proof (is_square_lower _
                  (valid_moves_squares _ _ _ _ Hwf Ep Ems ts Hin)) as Hl.
    rewrite Hl in *.
    destruct (is_king (init_pos g !! ts)) eqn:Hk; [|congruence].
    destruct (Hking p ts ms _ Ep Ecol Ems Hin Hk) as (k & Ek & Hkk & Hkc).
    exists ts, k. rewrite Ecol. auto.
  - unfold moved_game in Hn |- *. cbn [game_state] in Hn |- *.
    destruct (is_king (init_pos g !! ts)) eqn:Hk; [|congruence].
    destruct (Hking p ts ms _ Ep Ecol Ems Hin Hk) as (k & Ek & Hkk & Hkc).
    exists ts, k. rewrite Ecol. auto.
Qed.

Lemma outcome_decided_by_king_capture_witness :
  wf_board (init_pos new_game) /\
  game_state new_game = "UNFINISHED" /\
  game_state (snd (make_move (3, 7) (3, 0) new_game)) <> "UNFINISHED" /\
  exists ts k,
    index_to_coord 3 0 = Ok ts /\
    init_pos new_game !! ts = Some k /\ kind k = King /\
    color k = other (player_turn new_game) /\
    game_state (snd (make_move (3, 7) (3, 0) new_game))
    = won (player_turn new_game).
Proof.
  assert (wf_board (init_pos new_game)) as Hwf by (vm_compute; reflexivity).
  assert (game_state (snd (make_move (3, 7) (3, 0) new_game)) <> "UNFINISHED")
    as Hn by (vm_compute; discriminate).
  split; [exact Hwf|]. split; [reflexivity|]. split; [exact Hn|].
  exact (outcome_decided_by_king_capture new_game (3, 7) (3, 0) Hwf eq_refl Hn).
Defined.

(** ** The number of pieces *)

Lemma size_delete_key (b : Board) (k : string) (p : Piece) :
  b !! k = Some p -> size b = S (size (delete k b)).
Proof.
  intros E. rewrite <- (map_size_insert_None k p (delete k b))
    by apply lookup_delete_eq.
  now rewrite insert_delete_id.
Qed.

Lemma make_move_size (f t : Z * Z) (g : ChessGame) :
  (size (init_pos (snd (make_move f t g))) <= size (init_pos g))%nat.
Proof.
  destruct (make_move_board f t g)
    as [->|(p & fs & ts & ms & q & _ & _ & _ & _ & _ & Eq & ->)]; [lia|].
  rewrite (size_delete_key _ _ _ Eq), map_size_insert.
  destruct (delete fs (init_pos g) !! ts); cbn; lia.
Qed.

(** X13.  An accepted move on a well-formed board keeps the number of
    pieces when the destination was empty and lowers it by one when the
    destination was occupied: the captured piece is gone from the board,
    and nothing else is. *)
Theorem capture_removes_one_piece (g g' : ChessGame) (f t : Z * Z)
    (ts : string) :
  wf_board (init_pos g) ->
  make_move f t g = (Ok true, g') ->
  index_to_coord (fst t) (snd t) = Ok ts ->
  match init_pos g !! ts with
  | None => size (init_pos g') = size (init_pos g)
  | Some _ => S (size (init_pos g')) = size (init_pos g)
  end.
Proof.
  intros Hwf H Et.
  apply (make_move_accept_wf f t g g' Hwf) in H
    as (p & fs & ts' & _ & _ & Et' & Ep & _ & _ & _ & Hne & _ & ->).
  rewrite Et in Et'. injection Et' as <-.
  unfold moved_game. cbn [init_pos].
  rewrite (size_delete_key _ _ _ Ep), map_size_insert.
  rewrite lookup_delete_ne by congruence.
  destruct (init_pos g !! ts); reflexivity.
Qed.

Lemma capture_removes_one_piece_witness :
  wf_board (init_pos new_game) /\
  size (init_pos (snd (make_move (4, 6) (4, 4) new_game)))
  = size (init_pos new_game) /\
  (let g' := snd (make_move (3, 7) (3, 0) new_game) in
   S (size (init_pos g')) = size (init_pos new_game)).
Proof.
  assert (wf_board (init_pos new_game)) as Hwf by (vm_compute; reflexivity).
  split; [exact Hwf|]. split.
  - assert (make_move (4, 6) (4, 4) new_game
            = (Ok true, snd (make_move (4, 6) (4, 4) new_game))) as E
        by (vm_compute; reflexivity).
    pose proof (capture_removes_one_piece new_game _ (4, 6) (4, 4) "e4" Hwf E
                  eq_refl) as H.
    assert (init_pos new_game !! "e4" = None) as E4 by (vm_compute; reflexivity).
    rewrite E4 in H. exact H.
  - assert (make_move (3, 7) (3, 0) new_game
            = (Ok true, snd (make_move (3, 7) (3, 0) new_game))) as E
        by (vm_compute; reflexivity).
    pose proof (capture_removes_one_piece new_game _ (3, 7) (3, 0) "d8" Hwf E
                  eq_refl) as H.
    assert (init_pos new_game !! "d8" = Some (new_piece King BLACK "d8")) as E8
        by (vm_compute; reflexivity).
    rewrite E8 in H. exact H.
Defined.

(** X14.  Every game that the public methods ([make_move],
    [set_game_state], [toggle_turn]) produce from a new game, whatever the
    arguments and the outcomes of the calls, has a well-formed board with
    at most 32 pieces, and its outcome is one of the three recognised
    states. *)
Theorem reachable_invariants (g : ChessGame) :
  reachable g ->
  wf_board (init_pos g) /\ (size (init_pos g) <= 32)%nat /\
  In (game_state g) all_states.
Proof.
  induction 1 as [|g f t Hr (Hwf & Hs & Hst)|g v Hr (Hwf & Hs & Hst)|
                  g Hr (Hwf & Hs & Hst)].
  - split; [exact new_game_wf|]. split; [vm_compute; lia|]. cbn. tauto.
  - split; [now apply make_move_wf|].
    split; [pose proof (make_move_size f t g); lia|].
    destruct (make_move_outcomes f t g Hwf)
      as [E|[(_ & E & _)|[(p & fs & ts & ms & _ & _ & _ & _ & _ & _ & _ & _ & E)|
          (p & fs & ts & ms & _ & _ & _ & _ & _ & _ & _ & E)]]];
      rewrite E; cbn [snd game_state moved_game]; try exact Hst.
    + destruct (is_king _); [|exact Hst]. destruct (color p); cbn; tauto.
    + destruct (is_king _); [|exact Hst]. destruct (color p); cbn; tauto.
  - unfold set_game_state. destruct v as [s| | |]; try (repeat split; assumption).
    destruct (existsb (String.eqb s) all_states) eqn:E;
      [|repeat split; assumption].
    cbn [snd init_pos game_state]. repeat split; try assumption.
    now apply in_existsb.
  - cbn. repeat split; assumption.
Qed.

Lemma reachable_invariants_witness :
  let g := snd (make_move (3, 7) (3, 0) new_game) in
  reachable g /\
  wf_board (init_pos g) /\ (size (init_pos g) <= 32)%nat /\
  In (game_state g) all_states.
Proof.
  intros g.
  assert (reachable g) as Hr by (apply reach_make_move, reach_new).
  split; [exact Hr|]. exact (reachable_invariants g Hr).
Defined.

(** ** The console: [parse_position] and the loop of [main] *)








(** ** Reading a square *)

Lemma lower_idem (s : string) : Py.lower (Py.lower s) = Py.lower s.
Proof. induction s as [|a s IH]; cbn; [reflexivity|]. now rewrite lower_char_idem, IH. Qed.

(** X17.  The three readers of a square agree and ignore the case of the
    notation.  [get_piece] gives the same answer for a [(col, row)] tuple
    and for its notation, and for a notation and its lower-case form; a
    square is open exactly when [get_piece] returns [None]; it holds an
    opponent of colour [c] exactly when [get_piece] returns a piece of the
    other colour. *)
Theorem square_readers_agree (b : Board) (s : string) (c : Color) :
  (forall col row,
     index_to_coord col row = Ok s ->
     get_piece b (PTuple col row) = get_piece b (PStr s)) /\
  get_piece b (PStr (Py.lower s)) = get_piece b (PStr s) /\
  is_square_open b (Py.lower s) = is_square_open b s /\
  is_opponent b (PStr (Py.lower s)) c = is_opponent b (PStr s) c /\
  (is_square_open b s = true <-> get_piece b (PStr s) = Ok None) /\
  (is_opponent b (PStr s) c = Ok true <->
   exists q, get_piece b (PStr s) = Ok (Some q) /\ color q = other c).
Proof.
  split; [intros col row E; unfold get_piece; now rewrite E|].
  split; [unfold get_piece; cbn [rbind]; now rewrite lower_idem|].
  split; [unfold is_square_open; now rewrite lower_idem|].
  split; [rewrite !is_opponent_str; now rewrite lower_idem|].
  split.
  - rewrite is_square_open_spec. unfold get_piece. cbn [rbind].
    split; [now intros ->|now intros [= ->]].
  - rewrite is_opponent_str. unfold get_piece. cbn [rbind].
    destruct (b !! Py.lower s) as [q|]; split.
    + intros [= H]. exists q. split; [reflexivity|].
      destruct (color q), c; cbn in *; congruence.
    + intros (q' & [= <-] & H). f_equal.
      destruct (color q), c; cbn in *; congruence.
    + discriminate.
    + intros (q' & [= ] & _).
Qed.

Lemma square_readers_agree_witness :
  index_to_coord 4 6 = Ok "e2" /\
  get_piece board_start (PTuple 4 6) = get_piece board_start (PStr "e2") /\
  get_piece board_start (PStr "e2") = get_piece board_start (PStr "E2").
Proof.
  split; [reflexivity|]. split.
  - apply (proj1 (square_readers_agree board_start "e2" WHITE) 4 6). reflexivity.
  - exact (proj1 (proj2 (square_readers_agree board_start "E2" WHITE))).
Defined.

(** ** Notations off the grid *)










(** ** Rendering *)

Lemma py_index_in {A : Type} (l : list A) (i : Z) :
  0 <= i < Z.of_nat (length l) -> py_index l i = Ok (Z.to_nat i).
Proof.
  intros H. unfold py_index.
  replace ((0 <=? i) && (i <? Z.of_nat (length l))) with true; [reflexivity|].
  symmetry. rewrite andb_true_iff. lia.
Qed.

Lemma display_put_square (grid : list (list Z)) (k : string) (p : Piece)
    (col row : Z) :
  dims grid -> in_grid col row = true -> coord_to_index k = Ok (col, row) ->
  exists grid',
    display_put grid (k, p) = Ok grid' /\ dims grid' /\
    cell grid' col row = Some (unicode p) /\
    forall c r, in_grid c r = true -> c <> col \/ r <> row ->
                cell grid' c r = cell grid c r.
Proof.
  intros [Hlen Hall] Hg Hc. apply in_grid_spec in Hg.
  unfold display_put. cbn [fst snd]. rewrite Hc. cbn [rbind].
  rewrite py_index_in by lia. cbn [rbind].
  destruct (lookup_lt_is_Some_2 grid (Z.to_nat row)) as [line Hline]; [lia|].
  rewrite Hline.
  assert (length line = 8%nat) as Hl.
  { rewrite List.Forall_forall in Hall. apply Hall.
    apply list_elem_of_In. eapply list_elem_of_lookup_2. exact Hline. }
  rewrite py_index_in by lia. cbn [rbind].
  eexists. split; [reflexivity|]. split; [|split].
  - split; [now rewrite length_insert|].
    apply Forall_insert; [exact Hall|]. now rewrite length_insert.
  - unfold cell. rewrite list_lookup_insert_eq by lia.
    apply list_lookup_insert_eq. lia.
  - intros c r Hcr Hne. apply in_grid_spec in Hcr. unfold cell.
    destruct (decide (Z.to_nat row = Z.to_nat r)) as [E | E].
    + rewrite <- E, list_lookup_insert_eq, Hline by lia.
      apply list_lookup_insert_ne. lia.
    + now rewrite list_lookup_insert_ne.
Qed.

Lemma display_fold (items : list (string * Piece)) :
  forall grid,
    dims grid ->
    Forall (fun item => is_square (fst item) = true) items ->
    NoDup (fst <$> items) ->
    exists grid',
      for_each items display_put grid = Ok grid' /\ dims grid' /\
      forall col row s,
        in_grid col row = true -> index_to_coord col row = Ok s ->
        (forall p, In (s, p) items -> cell grid' col row = Some (unicode p)) /\
        ((forall p, ~ In (s, p) items) ->
         cell grid' col row = cell grid col row).
Proof.
  induction items as [|[k p] rest IH]; intros grid Hd Hsq Hnd.
  - exists grid. split; [reflexivity|]. split; [exact Hd|].
    intros col row s _ _. split; [intros q []|reflexivity].
  - apply Forall_cons in Hsq as [Hk Hsq]. cbn [fst] in Hk.
    rewrite fmap_cons in Hnd. cbn [fst] in Hnd.
    apply NoDup_cons in Hnd as [Hfresh Hnd].
    destruct (is_square_coord k Hk) as (col0 & row0 & Hg0 & Hi0 & Hc0).
    destruct (display_put_square grid k p col0 row0 Hd Hg0 Hc0)
      as (grid1 & Hput & Hd1 & Hhere & Hfar).
    destruct (IH grid1 Hd1 Hsq Hnd) as (grid' & Hrun & Hd' & Hcells).
    exists grid'. cbn [for_each]. rewrite Hput. cbn [rbind].
    split; [exact Hrun|]. split; [exact Hd'|].
    intros col row s Hg Hi. destruct (Hcells col row s Hg Hi) as [Hin Hout].
    split.
    + intros q [Heq | Hq]; [|exact (Hin q Hq)].
      injection Heq as <- <-.
      destruct (index_to_coord_inj _ _ _ _ _ Hi Hi0) as [-> ->].
      rewrite Hout; [exact Hhere|].
      intros q Hq. apply Hfresh. apply list_elem_of_fmap.
      exists (k, q). split; [reflexivity|]. apply list_elem_of_In, Hq.
    + intros Hno. rewrite Hout by (intros q Hq; apply (Hno q); now right).
      apply Hfar; [exact Hg|].
      destruct (decide (col = col0)) as [-> | ?]; [|now left].
      destruct (decide (row = row0)) as [-> | ?]; [|now right].
      exfalso. apply (Hno p). left. congruence.
Qed.

Lemma blank_cell (col row : Z) :
  in_grid col row = true -> cell blank_grid col row = Some 32.
Proof.
  intros H. apply in_grid_spec in H. unfold cell, blank_grid.
  rewrite lookup_replicate_2 by lia. apply lookup_replicate_2. lia.
Qed.

Lemma blank_dims : dims blank_grid.
Proof. split; [reflexivity|]. repeat constructor. Qed.

Lemma display_grid_board (b : Board) (items : list (string * Piece)) :
  wf_board b -> Permutation items (map_to_list b) ->
  exists grid,
    display_grid items = Ok grid /\ dims grid /\
    forall col row s,
      in_grid col row = true -> index_to_coord col row = Ok s ->
      cell grid col row = Some (glyph b s).
Proof.
  intros Hwf Hperm.
  assert (forall s p, In (s, p) items <-> b !! s = Some p) as Hmem.
  { intros s p. rewrite <- elem_of_map_to_list, list_elem_of_In.
    split; intros H.
    - eapply Permutation_in; [exact Hperm|exact H].
    - eapply Permutation_in; [symmetry; exact Hperm|exact H]. }
  destruct (display_fold items blank_grid blank_dims)
    as (grid & Hrun & Hd & Hcells).
  - apply List.Forall_forall. intros [k p] Hin. cbn [fst].
    apply Hmem in Hin. exact (wf_board_key _ _ _ Hwf Hin).
  - rewrite Hperm. apply NoDup_fst_map_to_list.
  - exists grid. split; [exact Hrun|]. split; [exact Hd|].
    intros col row s Hg Hi. destruct (Hcells col row s Hg Hi) as [Hin Hout].
    unfold glyph. destruct (b !! s) as [p|] eqn:Eb.
    + apply Hin, Hmem, Eb.
    + rewrite Hout; [now apply blank_cell|].
      intros p Hp. apply Hmem in Hp. congruence.
Qed.

Lemma display_rows_lookup (rows : list (list Z)) :
  forall (n : Z) (r : nat) (row : list Z),
    rows !! r = Some row ->
    display_rows rows n !! r
    = Some (text (Py.str (n - Z.of_nat r)) ++ text "| " ++ join_spaces row
            ++ text " | " ++ text (row_label (n - Z.of_nat r))).
Proof.
  induction rows as [|row0 rows IH]; intros n r row H; [discriminate|].
  destruct r as [|r].
  - injection H as ->. cbn [display_rows]. cbn [lookup list_lookup].
    now rewrite Z.sub_0_r.
  - cbn [display_rows]. etransitivity; [exact (IH (n - 1) r row H)|].
    replace (n - 1 - Z.of_nat r) with (n - Z.of_nat (S r)) by lia.
    reflexivity.
Qed.

Lemma printed_cell (line : list Z) (col row : Z) (v : Z) :
  length line = 8%nat -> in_grid col row = true ->
  line !! Z.to_nat col = Some v ->
  let printed := text (Py.str (8 - row)) ++ text "| " ++ join_spaces line
                 ++ text " | " ++ text (row_label (8 - row)) in
  printed !! Z.to_nat (3 + 2 * col) = Some v /\
  firstn 1 printed = text (Py.str (8 - row)) /\
  text "   A B C D E F G H" !! Z.to_nat (3 + 2 * col) = Some (65 + col).
Proof.
  intros Hl Hg Hv. apply in_grid_spec in Hg.
  do 9 (destruct line as [|? line]; try discriminate).
  assert (row = 0 \/ row = 1 \/ row = 2 \/ row = 3 \/ row = 4 \/ row = 5
          \/ row = 6 \/ row = 7) as Hr by lia.
  assert (col = 0 \/ col = 1 \/ col = 2 \/ col = 3 \/ col = 4 \/ col = 5
          \/ col = 6 \/ col = 7) as Hc by lia.
  repeat destruct Hr as [Hr | Hr]; subst row;
    repeat destruct Hc as [Hc | Hc]; subst col;
    injection Hv as <-; repeat split; reflexivity.
Qed.

Lemma display_rows_length (rows : list (list Z)) :
  forall n, length (display_rows rows n) = length rows.
Proof.
  induction rows as [|row rows IH]; intros n; [reflexivity|].
  cbn [display_rows length]. now rewrite IH.
Qed.

Lemma dims_line (grid : list (list Z)) (r : nat) (line : list Z) :
  dims grid -> grid !! r = Some line -> length line = 8%nat.
Proof.
  intros [_ Hall] H. rewrite List.Forall_forall in Hall. apply Hall.
  apply list_elem_of_In. eapply list_elem_of_lookup_2. exact H.
Qed.

Lemma grid_ext (grid grid' : list (list Z)) :
  dims grid -> dims grid' ->
  (forall col row, in_grid col row = true ->
                   cell grid col row = cell grid' col row) ->
  grid = grid'.
Proof.
  intros Hd Hd' Hcells. apply list_eq. intros r.
  destruct (decide (r < 8)%nat) as [Hr | Hr].
  - destruct (lookup_lt_is_Some_2 grid r) as [line Hl];
      [destruct Hd as [-> _]; exact Hr|].
    destruct (lookup_lt_is_Some_2 grid' r) as [line' Hl'];
      [destruct Hd' as [-> _]; exact Hr|].
    rewrite Hl, Hl'. f_equal. apply list_eq. intros c.
    pose proof (dims_line _ _ _ Hd Hl) as Hn.
    pose proof (dims_line _ _ _ Hd' Hl') as Hn'.
    destruct (decide (c < 8)%nat) as [Hc | Hc].
    + specialize (Hcells (Z.of_nat c) (Z.of_nat r)).
      unfold cell in Hcells. rewrite !Nat2Z.id, Hl, Hl' in Hcells.
      apply Hcells. apply in_grid_spec. lia.
    + rewrite !lookup_ge_None_2 by lia. reflexivity.
  - destruct Hd as [Hn _], Hd' as [Hn' _].
    rewrite !lookup_ge_None_2 by lia. reflexivity.
Qed.

(** X19. [display_board] on a well-formed board raises nothing and prints
    thirteen lines; whatever the order in which the dictionary yields its
    items, the square named [s] at column [col] and row [row] of the grid
    is printed on line [1 + row], which starts with the rank digit of [s],
    at character [3 + 2 * col], under the letter of its file in the header
    line: it shows the glyph of the piece that stands on [s], or a blank
    when the square is empty. *)
Theorem display_board_shows_position (g : ChessGame)
    (items : list (string * Piece)) :
  wf_board (init_pos g) ->
  Permutation items (map_to_list (init_pos g)) ->
  exists lines,
    display_text items g = Ok lines /\ length lines = 13%nat /\
    forall col row s,
      in_grid col row = true -> index_to_coord col row = Ok s ->
      exists header line,
        lines !! 0%nat = Some header /\
        header !! Z.to_nat (3 + 2 * col) = Some (65 + col) /\
        lines !! Z.to_nat (1 + row) = Some line /\
        firstn 1 line = text (Py.str (8 - row)) /\
        line !! Z.to_nat (3 + 2 * col) = Some (glyph (init_pos g) s).
Proof.
  intros Hwf Hperm.
  destruct (display_grid_board _ _ Hwf Hperm) as (grid & Hrun & Hd & Hcells).
  unfold display_text. rewrite Hrun. cbn [rbind].
  eexists. split; [reflexivity|]. split.
  - rewrite !length_app, display_rows_length. destruct Hd as [-> _].
    reflexivity.
  - intros col row s Hg Hi. specialize (Hcells col row s Hg Hi).
    unfold cell in Hcells.
    destruct (grid !! Z.to_nat row) as [line0|] eqn:Hline; [|discriminate].
    pose proof (dims_line _ _ _ Hd Hline) as Hlen.
    destruct (printed_cell line0 col row _ Hlen Hg Hcells)
      as (Hcell & Hrank & Hfile).
    pose proof (display_rows_lookup grid 8 _ _ Hline) as Hrow.
    apply in_grid_spec in Hg. rewrite Z2Nat.id in Hrow by lia.
    eexists. eexists. split; [reflexivity|]. split; [exact Hfile|].
    split; [|split; [exact Hrank|exact Hcell]].
    replace (Z.to_nat (1 + row)) with (S (Z.to_nat row)) by lia.
    cbn [app]. rewrite lookup_cons. rewrite lookup_app_l.
    + exact Hrow.
    + rewrite display_rows_length. destruct Hd as [-> _]. lia.
Qed.

Lemma display_board_shows_position_witness :
  exists lines,
    display_text (map_to_list board_start) new_game = Ok lines /\
    length lines = 13%nat /\
    forall col row s,
      in_grid col row = true -> index_to_coord col row = Ok s ->
      exists header line,
        lines !! 0%nat = Some header /\
        header !! Z.to_nat (3 + 2 * col) = Some (65 + col) /\
        lines !! Z.to_nat (1 + row) = Some line /\
        firstn 1 line = text (Py.str (8 - row)) /\
        line !! Z.to_nat (3 + 2 * col) = Some (glyph board_start s).
Proof.
  apply (display_board_shows_position new_game (map_to_list board_start)).
  - vm_compute. reflexivity.
  - reflexivity.
Defined.

(** X20. The picture that [display_board] builds does not depend on the
    order in which the dictionary yields its items: two orders of the items
    of a well-formed board give the same printed lines. *)
Theorem display_order_irrelevant (g : ChessGame)
    (items items' : list (string * Piece)) :
  wf_board (init_pos g) ->
  Permutation items (map_to_list (init_pos g)) ->
  Permutation items' (map_to_list (init_pos g)) ->
  display_text items g = display_text items' g.
Proof.
  intros Hwf Hp Hp'.
  destruct (display_grid_board _ _ Hwf Hp) as (grid & Hrun & Hd & Hcells).
  destruct (display_grid_board _ _ Hwf Hp') as (grid' & Hrun' & Hd' & Hcells').
  assert (grid = grid') as ->.
  { apply grid_ext; [exact Hd|exact Hd'|]. intros col row Hg.
    destruct (grid_square col row Hg) as (s & Hi & _).
    now rewrite (Hcells col row s Hg Hi), (Hcells' col row s Hg Hi). }
  unfold display_text. now rewrite Hrun, Hrun'.
Qed.

Lemma display_order_irrelevant_witness :
  display_text (map_to_list board_start) new_game
  = display_text (rev (map_to_list board_start)) new_game.
Proof.
  apply (display_order_irrelevant new_game).
  - vm_compute. reflexivity.
  - reflexivity.
  - symmetry. apply Permutation_rev.
Defined.

(** X21. The glyphs are pairwise different and none is the blank, so the
    picture determines the position: two well-formed boards that
    [display_board] draws alike have, on every square of the grid, pieces
    of the same type and colour, or no piece on either. *)
Theorem display_determines_position (b b' : Board)
    (items items' : list (string * Piece)) :
  wf_board b -> wf_board b' ->
  Permutation items (map_to_list b) -> Permutation items' (map_to_list b') ->
  display_grid items = display_grid items' ->
  forall s, is_square s = true ->
    match b !! s, b' !! s with
    | Some p, Some q => kind p = kind q /\ color p = color q
    | None, None => True
    | _, _ => False
    end.
Proof.
  intros Hwf Hwf' Hp Hp' Heq s Hs.
  destruct (display_grid_board _ _ Hwf Hp) as (grid & Hrun & _ & Hcells).
  destruct (display_grid_board _ _ Hwf' Hp') as (grid' & Hrun' & _ & Hcells').
  assert (grid = grid') as <- by congruence.
  destruct (is_square_inv s Hs) as (col & row & Hg & Hi).
  pose proof (Hcells col row s Hg Hi) as H.
  rewrite (Hcells' col row s Hg Hi) in H. injection H as H.
  unfold glyph in H.
  destruct (b !! s) as [p|], (b' !! s) as [q|]; try exact I.
  - unfold unicode in H.
    destruct (kind p), (color p), (kind q), (color q);
      first [discriminate H | split; reflexivity].
  - unfold unicode in H. destruct (kind p), (color p); discriminate H.
  - unfold unicode in H. destruct (kind q), (color q); discriminate H.
Qed.

Lemma display_determines_position_witness :
  let b' := alter (set_init_move false) "a2" board_start in
  b' <> board_start /\
  forall s, is_square s = true ->
    match board_start !! s, b' !! s with
    | Some p, Some q => kind p = kind q /\ color p = color q
    | None, None => True
    | _, _ => False
    end.
Proof.
  intros b'. split.
  - intros H. apply (f_equal (fun m => m !! "a2")) in H. vm_compute in H.
    discriminate H.
  - apply (display_determines_position board_start b'
             (map_to_list board_start) (map_to_list b')).
    + vm_compute. reflexivity.
    + vm_compute. reflexivity.
    + reflexivity.
    + reflexivity.
    + vm_compute. reflexivity.
Defined.
